(** * ClauseCraft AI: the client-side security layer (services/securityLayer.ts)

    A shallow embedding of the [securityLayer] module: the session record,
    the PII pattern table with the regular expressions it is built from,
    [redactPII], [validateInput], [secureExecute] and [clearSession].

    JavaScript strings are sequences of UTF-16 code units, and a regular
    expression without the [u] flag works on code units, so a string is a
    [list N] here and [String.length] is [length]. *)

From Stdlib Require Import String Ascii DecimalString List NArith ZArith Bool Lia.
Import ListNotations.

Set Implicit Arguments.

(* ------------------------------------------------------------------ *)
(** ** Strings *)

Module Js.

(** A UTF-16 code unit, and a string of them. *)
Abbreviation cu := N.

Abbreviation jsstring := (list N).

(** A string literal of the source (all of them are ASCII). *)
Fixpoint lit (s : string) : jsstring :=
  match s with
  | EmptyString => []
  | String a s' => N_of_ascii a :: lit s'
  end.

(** Truthiness of a string value: only the empty string is falsy. *)
Definition truthy (s : jsstring) : bool :=
  match s with [] => false | _ :: _ => true end.

(** [String.prototype.startsWith] and [String.prototype.includes]. *)
Fixpoint startsWith (s p : jsstring) : bool :=
  match p, s with
  | [], _ => true
  | a :: p', b :: s' => (a =? b)%N && startsWith s' p'
  | _ :: _, [] => false
  end.

Fixpoint includes (s sub : jsstring) : bool :=
  startsWith s sub ||
  match s with
  | [] => false
  | _ :: s' => includes s' sub
  end.

(** [String.prototype.split] with a separator of one code unit: the pieces
    between the separators, in order; there is always at least one piece. *)
Fixpoint split (sep : cu) (s : jsstring) : list jsstring :=
  match s with
  | [] => [[]]
  | c :: s' =>
      if (c =? sep)%N then [] :: split sep s'
      else
        match split sep s' with
        | p :: ps => (c :: p) :: ps
        | [] => [[c]]
        end
  end.

(** The double quote and the line feed, for the literals that have them. *)
Definition dq : jsstring := [34%N].
Definition nl : jsstring := [10%N].

End Js.

Import Js.

(* ------------------------------------------------------------------ *)
(** ** Regular expressions

    The fragment of ECMAScript patterns that [PII_PATTERNS] uses: character
    classes, sequence, alternation, greedy and lazy bounded quantifiers,
    groups and the word-boundary assertion, with the [i] flag. *)

Module Regex.

(** A character class is a list of inclusive code-unit ranges. *)
Definition charclass := list (N * N).

Inductive regex : Type :=
| Empty                                   (* the empty pattern *)
| Chr (cls : charclass)                   (* one code unit of a class *)
| Seq (r1 r2 : regex)                     (* r1 r2 *)
| Alt (r1 r2 : regex)                     (* r1 | r2 *)
| Quant (greedy : bool) (min : nat) (max : option nat) (r : regex)
                                          (* r{min,max}, lazy with a ? behind *)
| Group (r : regex)                       (* ( r ): the captures are not used
                                             by the replacements, which have
                                             no $ *)
| WordB.                                  (* \b *)

Definition in_range (c : cu) (rg : N * N) : bool :=
  (fst rg <=? c)%N && (c <=? snd rg)%N.

Definition in_class (cls : charclass) (c : cu) : bool :=
  existsb (in_range c) cls.

(** [a-z], [A-Z], [0-9] and the class escapes. *)
Definition lower : charclass := [(97, 122)]%N.
Definition upper : charclass := [(65, 90)]%N.
Definition digit : charclass := [(48, 57)]%N.

(** [\s]: WhiteSpace and LineTerminator of ECMAScript. *)
Definition space : charclass :=
  [(9, 13); (32, 32); (160, 160); (5760, 5760); (8192, 8202);
   (8232, 8233); (8239, 8239); (8287, 8287); (12288, 12288);
   (65279, 65279)]%N.

(** [\w], which [\b] is defined from: [A-Za-z0-9_]. *)
Definition word : charclass := lower ++ upper ++ digit ++ [(95, 95)]%N.

Definition is_word (c : cu) : bool := in_class word c.

(** The other-case form of an ASCII letter.  Canonicalize of a pattern
    without the [u] flag never maps a code unit of 128 or more to one below
    128, the classes and literals of the table are ASCII letters, digits,
    punctuation and [\s], and no code unit upper-cases to a white-space one:
    case-insensitive matching against this table is ASCII case folding. *)
Definition swapcase (c : cu) : cu :=
  if in_class lower c then (c - 32)%N
  else if in_class upper c then (c + 32)%N
  else c.

(** CharacterSetMatcher: [ic] is the [i] flag. *)
Definition class_match (ic : bool) (cls : charclass) (c : cu) : bool :=
  in_class cls c || (ic && in_class cls (swapcase c)).

(** A matcher state: whether the code unit before the current position is a
    word character ([false] at the start of the input), and the input from
    the current position on. *)
Abbreviation state := (bool * list N)%type.

Definition rest (x : state) : jsstring := snd x.

Definition next_is_word (s : jsstring) : bool :=
  match s with [] => false | c :: _ => is_word c end.

Section Repeat.

(** RepeatMatcher.  [step] is the matcher of the quantified atom.  The
    results are the end states of every way to match, in the order in
    which backtracking tries them; an iteration that consumes nothing
    once [min] is reached is dropped.  [fuel] bounds the iterations. *)
Variable step : state -> list state.
Variable greedy : bool.

Fixpoint rep (fuel min : nat) (max : option nat) (x : state) : list state :=
  match fuel with
  | O => []
  | S f =>
      match max with
      | Some O => [x]
      | _ =>
          let again :=
            flat_map
              (fun y =>
                 if (min =? 0) && (length (rest y) =? length (rest x))
                 then []
                 else rep f (pred min) (option_map pred max) y)
              (step x) in
          if 0 <? min then again
          else if greedy then again ++ [x]
          else x :: again
      end
  end.

End Repeat.

(** Every quantified iteration either lowers [min] or consumes a code
    unit, so this many iterations are never exceeded ([rep_fuel_enough]). *)
Definition rep_fuel (min : nat) (x : state) : nat :=
  S (min + length (rest x)).

(** The matcher of a pattern: the end states of all its matches that start
    at [x], first choice first. *)
Fixpoint mt (ic : bool) (r : regex) (x : state) : list state :=
  match r with
  | Empty => [x]
  | Chr cls =>
      match rest x with
      | c :: s' => if class_match ic cls c then [(is_word c, s')] else []
      | [] => []
      end
  | Seq r1 r2 => flat_map (mt ic r2) (mt ic r1 x)
  | Alt r1 r2 => mt ic r1 x ++ mt ic r2 x
  | Quant g mn mx r' => rep (mt ic r') g (rep_fuel mn x) mn mx x
  | Group r' => mt ic r' x
  | WordB => if xorb (fst x) (next_is_word (rest x)) then [x] else []
  end.

(** The length of the match that starts at this position, if there is one:
    the first end state backtracking reaches. *)
Definition exec (ic : bool) (r : regex) (pw : bool) (s : jsstring) : option nat :=
  match mt ic r (pw, s) with
  | [] => None
  | y :: _ => Some (length s - length (rest y))
  end.

(** RegExpBuiltinExec from a position on: the matcher is tried at this
    position and then at each later one, up to the end of the input; the
    result is the distance to the first position where it succeeds and the
    length of the match there. *)
Fixpoint find_from (ic : bool) (r : regex) (pw : bool) (s : jsstring) : option (nat * nat) :=
  match exec ic r pw s with
  | Some len => Some (0, len)
  | None =>
      match s with
      | [] => None
      | c :: s' =>
          match find_from ic r (is_word c) s' with
          | Some (i, len) => Some (S i, len)
          | None => None
          end
      end
  end.

(** [RegExp.prototype.test] with [lastIndex] 0. *)
Definition test (ic : bool) (r : regex) (s : jsstring) : bool :=
  match find_from ic r false s with Some _ => true | None => false end.

(** [String.prototype.replace] with a global pattern and a replacement that
    has no [$]: the input is scanned from left to right; [skip] is the
    number of code units of the last match still to pass over.  A match
    puts the replacement in place of the matched code units and the scan
    goes on after it; after an empty match it goes on one code unit
    further, which is copied. *)
Fixpoint replace_from (ic : bool) (r : regex) (tok : jsstring)
    (pw : bool) (s : jsstring) (skip : nat) : jsstring :=
  match skip with
  | S n =>
      match s with
      | [] => []
      | c :: s' => replace_from ic r tok (is_word c) s' n
      end
  | O =>
      match exec ic r pw s with
      | Some len =>
          tok ++
          match s with
          | [] => []
          | c :: s' =>
              match len with
              | O => c :: replace_from ic r tok (is_word c) s' 0
              | S n => replace_from ic r tok (is_word c) s' n
              end
          end
      | None =>
          match s with
          | [] => []
          | c :: s' => c :: replace_from ic r tok (is_word c) s' 0
          end
      end
  end.

Definition replace (ic : bool) (r : regex) (tok : jsstring) (s : jsstring) : jsstring :=
  replace_from ic r tok false s 0.

(** *** Pattern syntax *)

Definition chr (a : ascii) : regex := Chr [(N_of_ascii a, N_of_ascii a)].

Fixpoint str (s : string) : regex :=
  match s with
  | EmptyString => Empty
  | String a EmptyString => chr a
  | String a s' => Seq (chr a) (str s')
  end.

Definition cat (rs : list regex) : regex := fold_right Seq Empty rs.

Fixpoint alt (rs : list regex) : regex :=
  match rs with
  | [] => Empty
  | [r] => r
  | r :: rs' => Alt r (alt rs')
  end.

Definition opt (r : regex) : regex := Quant true 0 (Some 1) r.
Definition plus (r : regex) : regex := Quant true 1 None r.
Definition lazy_star (r : regex) : regex := Quant false 0 None r.
Definition times (n : nat) (r : regex) : regex := Quant true n (Some n) r.
Definition at_least (n : nat) (r : regex) : regex := Quant true n None r.
Definition between (n m : nat) (r : regex) : regex := Quant true n (Some m) r.

Definition one_of (s : string) : charclass :=
  map (fun c => (c, c)) (lit s).

(** *** Notions used to state properties of the matcher *)

(** A matcher whose end states are never before its start state. *)
Definition shrinking (step : state -> list state) : Prop :=
  forall x y, In y (step x) -> length (rest y) <= length (rest x).

(** [rejects ic r c]: no character class of [r] accepts [c]. *)
Fixpoint rejects (ic : bool) (r : regex) (c : cu) : bool :=
  match r with
  | Empty | WordB => true
  | Chr cls => negb (class_match ic cls c)
  | Seq r1 r2 | Alt r1 r2 => rejects ic r1 c && rejects ic r2 c
  | Quant _ _ _ r' | Group r' => rejects ic r' c
  end.

(** The same position with [B] after the input. *)
Definition ext (B : jsstring) (y : state) : state := (fst y, rest y ++ B).

(** Whether the code unit before the position reached after [consumed] is
    a word character. *)
Definition word_before (pw : bool) (consumed : jsstring) : bool :=
  fold_left (fun _ c => is_word c) consumed pw.

(** A matcher that keeps a property of the rest of the input. *)
Definition keeps (Q : jsstring -> Prop) (step : state -> list state) : Prop :=
  forall x y, In y (step x) -> Q (rest x) -> Q (rest y).

(** Every range of [cls] lies in a range of [P]. *)
Definition sub_class (cls P : charclass) : bool :=
  forallb
    (fun rg => existsb (fun pr => (fst pr <=? fst rg)%N && (snd rg <=? snd pr)%N) P)
    cls.

(** No range of [P] has an ASCII letter. *)
Definition no_letters (P : charclass) : bool :=
  forallb
    (fun pr => ((snd pr <? 65) || ((90 <? fst pr) && (snd pr <? 97)) ||
                (122 <? fst pr))%N)
    P.

(** [needs P r]: every match of [r] has a code unit of [P] in it. *)
Fixpoint needs (P : charclass) (r : regex) : bool :=
  match r with
  | Empty | WordB => false
  | Chr cls => sub_class cls P
  | Seq r1 r2 => needs P r1 || needs P r2
  | Alt r1 r2 => needs P r1 && needs P r2
  | Quant _ mn mx r' =>
      (0 <? mn) && match mx with Some O => false | _ => true end && needs P r'
  | Group r' => needs P r'
  end.

(** Where the run of the class ends. *)
Definition stops (cls : charclass) (s : jsstring) : Prop :=
  match s with
  | [] => True
  | d :: _ => class_match false cls d = false
  end.

(** The end states of a greedy [cls{min,}]: the longest run first. *)
Fixpoint greedy_ends (cls : charclass) (pw : bool) (s : jsstring) (min : nat) :
    list state :=
  let here := if min =? 0 then [(pw, s)] else [] in
  match s with
  | c :: s' =>
      if class_match false cls c
      then greedy_ends cls (is_word c) s' (pred min) ++ here
      else here
  | [] => here
  end.

(** To the classes of the table the digits other than 1 are alike:
    [kind] sends them all to 2. *)
Definition kind (c : cu) : cu :=
  if in_class digit c && negb (c =? 49)%N then 50%N else c.

Definition other_digits : list cu := [48; 50; 51; 52; 53; 54; 55; 56; 57]%N.

Definition class_alike (ic : bool) (cls : charclass) : bool :=
  forallb (fun c => Bool.eqb (class_match ic cls c) (class_match ic cls 50))
    other_digits.

Fixpoint alike (ic : bool) (r : regex) : bool :=
  match r with
  | Empty | WordB => true
  | Chr cls => class_alike ic cls
  | Seq r1 r2 | Alt r1 r2 => alike ic r1 && alike ic r2
  | Quant _ _ _ r' | Group r' => alike ic r'
  end.

(** A state with the rest of the input mapped. *)
Definition mapst (f : cu -> cu) (y : state) : state := (fst y, map f (rest y)).

(** The digit 1 or another digit, and all choices of [n] of them. *)
Definition digit_of (b : bool) : cu := if b then 49%N else 50%N.

Fixpoint all_bits (n : nat) : list (list bool) :=
  match n with
  | O => [[]]
  | S n' => flat_map (fun bs => [true :: bs; false :: bs]) (all_bits n')
  end.

(** [respects f ic r]: no class of [r] tells a code unit from its image
    under [f]. *)
Fixpoint respects (f : cu -> cu) (ic : bool) (r : regex) : Prop :=
  match r with
  | Empty | WordB => True
  | Chr cls => forall c, class_match ic cls (f c) = class_match ic cls c
  | Seq r1 r2 | Alt r1 r2 => respects f ic r1 /\ respects f ic r2
  | Quant _ _ _ r' | Group r' => respects f ic r'
  end.

(** [any_digit] sends every digit to 2; a pattern whose classes have all
    the digits or none cannot tell. *)
Definition any_digit (c : cu) : cu := if in_class digit c then 50%N else c.

Definition all_digits : list cu := [48; 49; 50; 51; 52; 53; 54; 55; 56; 57]%N.

Definition class_digits_alike (ic : bool) (cls : charclass) : bool :=
  forallb (fun c => Bool.eqb (class_match ic cls c) (class_match ic cls 50))
    all_digits.

Fixpoint digits_alike (ic : bool) (r : regex) : bool :=
  match r with
  | Empty | WordB => true
  | Chr cls => class_digits_alike ic cls
  | Seq r1 r2 | Alt r1 r2 => digits_alike ic r1 && digits_alike ic r2
  | Quant _ _ _ r' | Group r' => digits_alike ic r'
  end.

End Regex.

Import Regex.

(* ------------------------------------------------------------------ *)
(** ** The security layer *)

Module SecurityLayer.

Local Open Scope char_scope.

(** *** Session state *)

Record SessionState : Type := {
  id : option jsstring;      (* string | null *)
  isActive : bool;
  startTime : Z
}.

(** The value [currentSession] is initialised with. *)
Definition noSession : SessionState :=
  {| id := None; isActive := false; startTime := 0 |}.

(** *** PII_PATTERNS *)

Inductive category : Type := EMAIL | PHONE | SSN | CREDIT_CARD | ADDRESS.

Definition categories : list category := [EMAIL; PHONE; SSN; CREDIT_CARD; ADDRESS].

Definition sep : regex := Chr (one_of "-. ").

(** [/[a-zA-Z0-9._%+-]+@[a-zA-Z0-9.-]+\.[a-zA-Z]{2,}/g] *)
Definition EMAIL_re : regex :=
  cat [ plus (Chr (lower ++ upper ++ digit ++ one_of "._%+-"));
        chr "@";
        plus (Chr (lower ++ upper ++ digit ++ one_of ".-"));
        chr ".";
        at_least 2 (Chr (lower ++ upper)) ].

(** [/(?:\+?1[-. ]?)?\(?([0-9]{3})\)?[-. ]?([0-9]{3})[-. ]?([0-9]{4})/g] *)
Definition PHONE_re : regex :=
  cat [ opt (cat [ opt (chr "+"); chr "1"; opt sep ]);
        opt (chr "(");
        Group (times 3 (Chr digit));
        opt (chr ")");
        opt sep;
        Group (times 3 (Chr digit));
        opt sep;
        Group (times 4 (Chr digit)) ].

(** [/\b\d{3}-\d{2}-\d{4}\b/g] *)
Definition SSN_re : regex :=
  cat [ WordB; times 3 (Chr digit); chr "-"; times 2 (Chr digit); chr "-";
        times 4 (Chr digit); WordB ].

(** [/\b(?:\d[ -]*?){13,16}\b/g] *)
Definition CREDIT_CARD_re : regex :=
  cat [ WordB;
        between 13 16 (cat [ Chr digit; lazy_star (Chr (one_of " -")) ]);
        WordB ].

(** [/\d+\s[A-Za-z0-9\s]+(?:Street|St|Avenue|Ave|Road|Rd|Boulevard|Blvd|Lane|Ln|Drive|Dr|Way)\.?/gi] *)
Definition ADDRESS_re : regex :=
  cat [ plus (Chr digit);
        Chr space;
        plus (Chr (upper ++ lower ++ digit ++ space));
        alt [ str "Street"; str "St"; str "Avenue"; str "Ave"; str "Road";
              str "Rd"; str "Boulevard"; str "Blvd"; str "Lane"; str "Ln";
              str "Drive"; str "Dr"; str "Way" ];
        opt (chr ".") ].

(** The pattern of a category and its [i] flag (all are global). *)
Definition PII_PATTERNS (c : category) : bool * regex :=
  match c with
  | EMAIL => (false, EMAIL_re)
  | PHONE => (false, PHONE_re)
  | SSN => (false, SSN_re)
  | CREDIT_CARD => (false, CREDIT_CARD_re)
  | ADDRESS => (true, ADDRESS_re)
  end.

(** [text.replace(PII_PATTERNS.C, tok)] *)
Definition replace_with (c : category) (tok : jsstring) (text : jsstring) : jsstring :=
  replace (fst (PII_PATTERNS c)) (snd (PII_PATTERNS c)) tok text.

(** [PII_PATTERNS.C.test(text)] on a fresh pattern. *)
Definition has_match (c : category) (text : jsstring) : bool :=
  test (fst (PII_PATTERNS c)) (snd (PII_PATTERNS c)) text.

Definition MAX_INPUT_CHARS : Z := 100000.

(** *** redactPII *)

Definition redactPII (text : jsstring) : jsstring :=
  if negb (truthy text) then lit ""
  else
    let redacted := text in
    let redacted := replace_with EMAIL (lit "{REDACTED_EMAIL}") redacted in
    let redacted := replace_with PHONE (lit "{REDACTED_PHONE}") redacted in
    let redacted := replace_with SSN (lit "{REDACTED_SSN}") redacted in
    let redacted := replace_with CREDIT_CARD (lit "{REDACTED_CC}") redacted in
    let redacted := replace_with ADDRESS (lit "{REDACTED_ADDRESS}") redacted in
    redacted.

(** The replacement [redactPII] uses for each category. *)
Definition token (c : category) : jsstring :=
  match c with
  | EMAIL => lit "{REDACTED_EMAIL}"
  | PHONE => lit "{REDACTED_PHONE}"
  | SSN => lit "{REDACTED_SSN}"
  | CREDIT_CARD => lit "{REDACTED_CC}"
  | ADDRESS => lit "{REDACTED_ADDRESS}"
  end.

(** One replacement pass of [redactPII]. *)
Definition pass (c : category) (text : jsstring) : jsstring :=
  replace_with c (token c) text.

(** A pass continued from a position behind a code unit that is
    ([pw = true]) or is not a word character. *)
Definition pass_from (c : category) (pw : bool) (text : jsstring) : jsstring :=
  replace_from (fst (PII_PATTERNS c)) (snd (PII_PATTERNS c)) (token c) pw text 0.

(** The first match of a category's pattern at or behind a position: how
    far away it starts and how long it is. *)
Definition first_match_from (c : category) (pw : bool) (text : jsstring) :
    option (nat * nat) :=
  find_from (fst (PII_PATTERNS c)) (snd (PII_PATTERNS c)) pw text.

(** The first match in a text. *)
Definition first_match (c : category) (text : jsstring) : option (nat * nat) :=
  first_match_from c false text.

(** The five passes in the order of [redactPII]. *)
Definition passes (text : jsstring) : jsstring :=
  pass ADDRESS (pass CREDIT_CARD (pass SSN (pass PHONE (pass EMAIL text)))).

(** The braces of the tokens. *)
Definition lbrace : cu := 123%N.
Definition rbrace : cu := 125%N.

(** What a token has between its braces. *)
Definition label (c : category) : jsstring :=
  match c with
  | EMAIL => lit "REDACTED_EMAIL"
  | PHONE => lit "REDACTED_PHONE"
  | SSN => lit "REDACTED_SSN"
  | CREDIT_CARD => lit "REDACTED_CC"
  | ADDRESS => lit "REDACTED_ADDRESS"
  end.

(** *** Effects

    [currentSession] is the one mutable variable of the module.  What the
    functions write to the console, and the calls [secureExecute] makes,
    are recorded in a trace, oldest event first. *)

Section Effects.

(** [T]: what a task resolves with; [E]: the values that can be thrown;
    [mkError msg] is [new Error(msg)]. *)
Variables T E : Type.
Variable mkError : jsstring -> E.

Inductive callee : Type := ValidateInput | RedactPII | Task.

Inductive event : Type :=
| ConsoleLog (msg : jsstring)
| ConsoleWarn (msg : jsstring)
| ConsoleError (msg : jsstring) (error : E)
| Invoke (f : callee) (arg : jsstring).

Record world : Type := {
  currentSession : SessionState;
  trace : list event
}.

Definition emit (e : event) (w : world) : world :=
  {| currentSession := currentSession w; trace := trace w ++ [e] |}.

Definition initial : world := {| currentSession := noSession; trace := [] |}.

(** How a promise ends. *)
Inductive promise (A : Type) : Type :=
| Fulfilled (v : A)
| Rejected (e : E)
| Pending.
Arguments Fulfilled {A} v.
Arguments Rejected {A} e.
Arguments Pending {A}.

(** [n.toString(10)] as interpolated in a template. *)
Definition decimal (n : nat) : jsstring :=
  lit (DecimalString.NilZero.string_of_uint (Nat.to_uint n)).

(** [byte.toString(16).padStart(2, '0')] *)
Definition hex_digit (d : N) : cu :=
  if (d <? 10)%N then (48 + d)%N else (87 + d)%N.

Definition toString16 (b : N) : jsstring :=
  if (b <? 16)%N then [hex_digit b]
  else [hex_digit (b / 16); hex_digit (b mod 16)].

Definition padStart (n : nat) (fill : cu) (s : jsstring) : jsstring :=
  repeat fill (n - length s) ++ s.

(** [initSession].  [random i] is what [crypto.getRandomValues] puts in
    element [i] of the 16-element [Uint8Array], [now] is [Date.now()]. *)
Definition initSession (random : nat -> N) (now : Z) (w : world) : jsstring * world :=
  let array := map (fun i => (random i mod 256)%N) (seq 0 16) in
  let sessionId :=
    concat (map (fun byte => padStart 2 (N_of_ascii "0") (toString16 byte)) array) in
  let w :=
    {| currentSession := {| id := Some sessionId; isActive := true; startTime := now |};
       trace := trace w |} in
  let w :=
    emit (ConsoleLog (lit "[SECURE_LOG] Session " ++ firstn 6 sessionId ++
                      lit "... initialized.")) w in
  (sessionId, w).

Definition getSessionId (w : world) : option jsstring * world :=
  (id (currentSession w), w).

Definition validateInput (text : jsstring) (w : world) : bool * world :=
  if (Z.of_nat (length text) >? MAX_INPUT_CHARS)%Z then
    (false,
     emit (ConsoleWarn (lit "[SECURE_LOG] Input exceeds max length of " ++
                        decimal (Z.to_nat MAX_INPUT_CHARS) ++ lit ".")) w)
  else (true, w).

(** [!currentSession.id]: [null] and the empty string are falsy. *)
Definition falsy_id (i : option jsstring) : bool :=
  match i with None => true | Some s => negb (truthy s) end.

(** [secureExecute].  The task is given by how the promise it returns for
    an argument ends; a task that throws before it returns a promise ends
    in the same [catch]. *)
Definition secureExecute (input taskName : jsstring)
    (task : jsstring -> promise T) (w : world) : promise T * world :=
  if negb (isActive (currentSession w)) || falsy_id (id (currentSession w)) then
    (Rejected (mkError (lit "Security Error: No active session.")), w)
  else
    let (valid, w) := validateInput input (emit (Invoke ValidateInput input) w) in
    if negb valid then
      (Rejected (mkError (lit "Security Error: Input validation failed (too large or unsafe).")), w)
    else
      let safeInput := redactPII input in
      let w := emit (Invoke RedactPII input) w in
      let w :=
        emit (ConsoleLog (lit "[SECURE_LOG] Executing " ++ taskName ++
                          lit " with redacted input length: " ++
                          decimal (length safeInput))) w in
      let w := emit (Invoke Task safeInput) w in
      match task safeInput with
      | Fulfilled result => (Fulfilled result, w)
      | Rejected error =>
          (Rejected error,
           emit (ConsoleError (lit "[SECURE_LOG] Error in " ++ taskName ++ lit ":") error) w)
      | Pending => (Pending, w)
      end.

(** [clearSession].  [oldId?.substring(0, 6)] is [undefined] for [null]. *)
Definition clearSession (w : world) : world :=
  let oldId := id (currentSession w) in
  let w := {| currentSession := noSession; trace := trace w |} in
  emit (ConsoleLog (lit "[SECURE_LOG] Session " ++
                    match oldId with
                    | Some s => firstn 6 s
                    | None => lit "undefined"
                    end ++
                    lit "... destroyed. Memory released.")) w.

(** The arguments the task was invoked with, in a trace. *)
Definition task_calls (tr : list event) : list jsstring :=
  flat_map (fun e => match e with Invoke Task a => [a] | _ => [] end) tr.

(** The arguments [redactPII] was invoked with by the wrapper. *)
Definition redact_calls (tr : list event) : list jsstring :=
  flat_map (fun e => match e with Invoke RedactPII a => [a] | _ => [] end) tr.

(** *** Reachable states *)

Inductive op : Type :=
| InitSession (random : nat -> N) (now : Z)
| GetSessionId
| ClearSession
| SecureExecute (input taskName : jsstring) (task : jsstring -> promise T).

Definition run (o : op) (w : world) : world :=
  match o with
  | InitSession random now => snd (initSession random now w)
  | GetSessionId => snd (getSessionId w)
  | ClearSession => clearSession w
  | SecureExecute input taskName task => snd (secureExecute input taskName task w)
  end.

Inductive reachable : world -> Prop :=
| reach_initial : reachable initial
| reach_run (o : op) (w : world) : reachable w -> reachable (run o w).

(** The identifier is present exactly while the session is active. *)
Definition session_inv (s : SessionState) : Prop :=
  id s <> None <-> isActive s = true.

End Effects.

(** What the wrapper's first test needs of a session that is marked
    active, and what every operation maintains. *)
Definition session_ok (s : SessionState) : Prop :=
  match id s with
  | None => isActive s = false
  | Some i => isActive s = true /\ truthy i = true
  end.

Arguments Fulfilled {E A} v.
Arguments Rejected {E A} e.
Arguments Pending {E A}.
Arguments initial {E}.
Arguments ConsoleLog {E} msg.
Arguments ConsoleWarn {E} msg.
Arguments Invoke {E} f arg.


(** The digits and the at sign: every pattern of the table needs one. *)
Definition pii_chars : charclass := digit ++ [(64, 64)]%N.

(** The classes of the three parts of the EMAIL pattern. *)
Definition local_class : charclass := lower ++ upper ++ digit ++ one_of "._%+-".
Definition domain_class : charclass := lower ++ upper ++ digit ++ one_of ".-".
Definition letter_class : charclass := lower ++ upper.

(** Nine digits written as a social security number, and ten digits
    written as a phone number with the given separators. *)
Definition ssn_text (ds : list cu) : jsstring :=
  firstn 3 ds ++ [45%N] ++ firstn 2 (skipn 3 ds) ++ [45%N] ++ skipn 5 ds.

Definition phone_text (sep1 sep2 : jsstring) (ds : list cu) : jsstring :=
  firstn 3 ds ++ sep1 ++ firstn 3 (skipn 3 ds) ++ sep2 ++ skipn 6 ds.

(** The separators of the PHONE pattern, and none. *)
Definition phone_seps : list jsstring := [[45%N]; [46%N]; [32%N]; []].

(** Whether a text is left alone by the passes before [c] and is, as a
    whole, the match of the pattern of [c] at its start. *)
Definition whole_match (c : category) (before : list category) (text : jsstring) : bool :=
  forallb (fun b => match first_match b text with None => true | Some _ => false end)
    before &&
  match exec (fst (PII_PATTERNS c)) (snd (PII_PATTERNS c)) false text with
  | Some n => Nat.eqb n (length text)
  | None => false
  end.

(** The PHONE pattern is its optional prefix and what follows it. *)
Definition PHONE_prefix : regex := cat [ opt (chr "+"); chr "1"; opt sep ].

Definition PHONE_tail : regex :=
  cat [ opt (chr "(");
        Group (times 3 (Chr digit));
        opt (chr ")");
        opt sep;
        Group (times 3 (Chr digit));
        opt sep;
        Group (times 4 (Chr digit)) ].

(** A text without an at sign. *)
Definition no_at (text : jsstring) : bool :=
  forallb (fun c => negb (c =? 64)%N) text.

(** The checks behind the theorems on social security and phone numbers,
    by the digits. *)
Definition ssn_check (ds : list cu) : bool :=
  no_at (ssn_text ds) && whole_match SSN [PHONE] (ssn_text ds).

Definition phone_check (ds : list cu) : bool :=
  forallb
    (fun sep1 =>
       forallb
         (fun sep2 =>
            no_at (phone_text sep1 sep2 ds) &&
            whole_match PHONE [] (phone_text sep1 sep2 ds))
         phone_seps)
    phone_seps.

(** How much of a bare run of digits the PHONE pattern takes at its
    start: ten digits, and a leading 1 in front of them. *)
Definition phone_take (ds : list cu) : nat :=
  match ds with
  | d :: _ => if (d =? 49)%N then 11 else 10
  | [] => 10
  end.

(** Whether no pattern of the passes from PHONE on has a match in a text. *)
Definition bare_rest_check (text : jsstring) : bool :=
  forallb
    (fun pw => match first_match_from PHONE pw text with
               | None => true
               | Some _ => false
               end)
    [true; false] &&
  forallb
    (fun c => match first_match c text with
              | None => true
              | Some _ => false
              end)
    [SSN; CREDIT_CARD; ADDRESS].

(** The lower-case hexadecimal digits. *)
Definition hex_class : charclass := [(48, 57); (97, 102)]%N.

End SecurityLayer.

Import SecurityLayer.

(* ------------------------------------------------------------------ *)
(** ** The WAV container (services/ttsGenerator.ts) *)

Module Wav.

(** The bytes of an [ArrayBuffer] or a [Uint8Array]. *)
Abbreviation bytes := (list N).

(** A [RangeError] is [None]. *)
Definition bind {A B} (x : option A) (k : A -> option B) : option B :=
  match x with Some a => k a | None => None end.

Notation "x <- e ;; k" := (bind e (fun x => k))
  (at level 61, e at next level, right associativity).

(** The buffer with the byte at index [i] replaced. *)
Definition upd (b : bytes) (i : nat) (v : N) : bytes :=
  firstn i b ++ v :: skipn (S i) b.

(** [DataView.prototype.setUint8]: the value is taken modulo 256; a write
    that does not fit in the view throws. *)
Definition setUint8 (view : bytes) (byteOffset : nat) (value : Z) : option bytes :=
  if byteOffset + 1 <=? length view then
    Some (upd view byteOffset (Z.to_N (value mod 256)))
  else None.

(** [setUint16(byteOffset, value, true)]: little-endian. *)
Definition setUint16 (view : bytes) (byteOffset : nat) (value : Z) : option bytes :=
  if byteOffset + 2 <=? length view then
    let v := Z.to_N (value mod 65536) in
    Some (upd (upd view byteOffset (v mod 256)) (byteOffset + 1) (v / 256))
  else None.

(** [setUint32(byteOffset, value, true)]: little-endian. *)
Definition setUint32 (view : bytes) (byteOffset : nat) (value : Z) : option bytes :=
  if byteOffset + 4 <=? length view then
    let v := Z.to_N (value mod 4294967296) in
    Some (upd (upd (upd (upd view byteOffset (v mod 256))
                        (byteOffset + 1) (v / 256 mod 256))
                   (byteOffset + 2) (v / 65536 mod 256))
              (byteOffset + 3) (v / 16777216))
  else None.

(** [getUint16(byteOffset, true)] and [getUint32(byteOffset, true)], the
    readers of what the two setters write. *)
Definition getUint16 (view : bytes) (byteOffset : nat) : option N :=
  match skipn byteOffset view with
  | b0 :: b1 :: _ => Some (b0 + 256 * b1)%N
  | _ => None
  end.

Definition getUint32 (view : bytes) (byteOffset : nat) : option N :=
  match skipn byteOffset view with
  | b0 :: b1 :: b2 :: b3 :: _ =>
      Some (b0 + 256 * b1 + 65536 * b2 + 16777216 * b3)%N
  | _ => None
  end.

(** [writeString]: one [setUint8] per code unit of the string. *)
Fixpoint writeString (view : bytes) (offset : nat) (string : jsstring) : option bytes :=
  match string with
  | [] => Some view
  | c :: string' =>
      view <- setUint8 view offset (Z.of_N c) ;;
      writeString view (S offset) string'
  end.

(** [typedArray.set(source, offset)]: throws when the source does not fit
    behind the offset. *)
Definition set (target source : bytes) (offset : nat) : option bytes :=
  if offset + length source <=? length target then
    Some (firstn offset target ++ source ++ skipn (offset + length source) target)
  else None.

(** [createWavFile].  [sampleRate] is an integer; the two divisions by 8
    are exact. *)
Definition createWavFile (pcmData : bytes) (sampleRate : Z) : option bytes :=
  let numChannels := 1%Z in
  let bitsPerSample := 16%Z in
  let byteRate := (sampleRate * numChannels * bitsPerSample / 8)%Z in
  let blockAlign := (numChannels * bitsPerSample / 8)%Z in
  let dataSize := length pcmData in
  let headerSize := 44 in
  let totalSize := headerSize + dataSize in
  let buffer := repeat 0%N totalSize in
  let view := buffer in
  view <- writeString view 0 (lit "RIFF") ;;
  view <- setUint32 view 4 (36 + Z.of_nat dataSize) ;;
  view <- writeString view 8 (lit "WAVE") ;;
  view <- writeString view 12 (lit "fmt ") ;;
  view <- setUint32 view 16 16 ;;
  view <- setUint16 view 20 1 ;;
  view <- setUint16 view 22 numChannels ;;
  view <- setUint32 view 24 sampleRate ;;
  view <- setUint32 view 28 byteRate ;;
  view <- setUint16 view 32 blockAlign ;;
  view <- setUint16 view 34 bitsPerSample ;;
  view <- writeString view 36 (lit "data") ;;
  view <- setUint32 view 40 (Z.of_nat dataSize) ;;
  let headerBytes := firstn headerSize view in
  let result := repeat 0%N totalSize in
  result <- set result headerBytes 0 ;;
  result <- set result pcmData headerSize ;;
  Some result.

(** The four bytes [setUint32] writes for a value. *)
Definition le32 (value : Z) : bytes :=
  let v := Z.to_N (value mod 4294967296) in
  [v mod 256; v / 256 mod 256; v / 65536 mod 256; v / 16777216]%N.

(** The two bytes [setUint16] writes for a value. *)
Definition le16 (value : Z) : bytes :=
  let v := Z.to_N (value mod 65536) in
  [v mod 256; v / 256]%N.

(** The header [createWavFile] builds for [dataSize] bytes of PCM. *)
Definition header (dataSize : nat) (sampleRate : Z) : bytes :=
  lit "RIFF" ++ le32 (36 + Z.of_nat dataSize) ++ lit "WAVE" ++
  lit "fmt " ++ le32 16 ++ le16 1 ++ le16 1 ++ le32 sampleRate ++
  le32 (sampleRate * 1 * 16 / 8) ++ le16 (1 * 16 / 8) ++ le16 16 ++
  lit "data" ++ le32 (Z.of_nat dataSize).

End Wav.

(* ------------------------------------------------------------------ *)
(** ** The model client (services/client.ts) *)

Module Client.

Definition MODELS_TEXT : jsstring := lit "gemini-2.5-flash".
Definition MODELS_TTS : jsstring := lit "gemini-2.5-flash-preview-tts".

(** What the services pass to [ai.models.generateContent]. *)
Inductive part : Type :=
| InlineData (mimeType : jsstring) (data : option jsstring)  (* undefined is None *)
| TextPart (text : jsstring).

Inductive contents : Type :=
| Prompt (text : jsstring)
| Parts (parts : list part).

Record request : Type := {
  model : jsstring;
  request_contents : contents;
  responseMimeType : option jsstring       (* config, where there is one *)
}.

(** [response.text || fallback]: [response.text] is a string or
    [undefined]. *)
Definition text_or (fallback : jsstring) (text : option jsstring) : jsstring :=
  match text with
  | Some t => if truthy t then t else fallback
  | None => fallback
  end.

End Client.

Import Client.

(* ------------------------------------------------------------------ *)
(** ** Reading the input (services/contractParser.ts) *)

Module contractParser.

Section Parser.

(** [E]: the values a promise can be rejected with.  The model call is
    given by how the promise of [generateContent] ends for a request, and
    what it ends with is [response.text]. *)
Variable E : Type.
Variable mkError : jsstring -> E.
Variable generateContent : request -> promise E (option jsstring).

(** How a [FileReader] ends: with [onload] and its [result] (a string, or
    something that is not one), with [onerror] and its event, or with
    neither. *)
Inductive reading : Type :=
| Load (result : option jsstring)
| ReadError (event : E)
| NoEvent.

(** A [File], by its type and what reading it gives. *)
Record File : Type := {
  type : jsstring;
  readAsText : reading;
  readAsDataURL : reading
}.

(** [fileToBase64]: [reader.result.split(',')[1]], which is [undefined]
    when there is no comma. *)
Definition fileToBase64 (file : File) : promise E (option jsstring) :=
  match readAsDataURL file with
  | Load (Some result) =>
      let base64 := nth_error (split (N_of_ascii ",") result) 1 in
      Fulfilled base64
  | Load None => Rejected (mkError (lit "Failed to convert file to base64"))
  | ReadError error => Rejected error
  | NoEvent => Pending
  end.

Definition extractPdfText (file : File) : promise E jsstring :=
  match fileToBase64 file with
  | Fulfilled base64Data =>
      match generateContent
              {| model := MODELS_TEXT;
                 request_contents :=
                   Parts [ InlineData (lit "application/pdf") base64Data;
                           TextPart (lit "Extract all readable text from this PDF. Do not summarize. Return raw contract text only.") ];
                 responseMimeType := None |} with
      | Fulfilled response => Fulfilled (text_or (lit "") response)
      | Rejected e => Rejected e
      | Pending => Pending
      end
  | Rejected e => Rejected e
  | Pending => Pending
  end.

(** [parse]: the input is a string ([inl]) or a [File] ([inr]). *)
Definition parse (input : jsstring + File) : promise E jsstring :=
  match input with
  | inl text => Fulfilled text
  | inr file =>
      if list_eq_dec N.eq_dec (type file) (lit "application/pdf") then
        extractPdfText file
      else
        match readAsText file with
        | Load (Some result) =>
            if truthy result then Fulfilled result
            else Rejected (mkError (lit "Failed to read file"))
        | Load None => Rejected (mkError (lit "Failed to read file"))
        | ReadError _ => Rejected (mkError (lit "File read error"))
        | NoEvent => Pending
        end
  end.

End Parser.

Arguments Load {E} result.
Arguments ReadError {E} event.
Arguments NoEvent {E}.

End contractParser.

(* ------------------------------------------------------------------ *)
(** ** The chat fallback (services/nlSearch.ts) *)

Module nlSearch.

Section Query.

Variable E : Type.
Variable mkError : jsstring -> E.
Variable generateContent : request -> promise E (option jsstring).

(** The request of [query] for a question and the text the wrapper hands
    to the task. *)
Definition query_request (query safeText : jsstring) : request :=
  {| model := MODELS_TEXT;
     request_contents :=
       Prompt (lit "Answer this about the contract: " ++ query ++ nl ++ nl ++
               lit "Contract: " ++ firstn 20000 safeText);
     responseMimeType := None |}.

Definition query_task (query safeText : jsstring) : promise E jsstring :=
  match generateContent (query_request query safeText) with
  | Fulfilled res => Fulfilled (text_or (lit "") res)
  | Rejected e => Rejected e
  | Pending => Pending
  end.

Definition query (query contractText : jsstring) (w : world E) :
    promise E jsstring * world E :=
  secureExecute mkError contractText (lit "Simple Chat") (query_task query) w.

End Query.

End nlSearch.

(* ------------------------------------------------------------------ *)
(** ** Risk analysis (services/riskAnalysis.ts) *)

Module riskAnalysis.

(** The prompt of [analyze] up to the quote that opens the contract
    text. *)
Definition prompt_head : jsstring :=
  concat
    [ nl;
      lit "You are ContractGuard "; [8212%N];
      lit " an advanced legal contract analysis system."; nl;
      nl;
      lit "Return JSON ONLY."; nl;
      nl;
      lit "First, check if the provided text is a legal contract or related legal document.";
      nl;
      lit "If it is clearly NOT a legal document (e.g. a recipe, a novel, random text), return ONLY:";
      nl;
      lit "{ "; dq; lit "is_legal_document"; dq; lit ": false, "; dq;
      lit "summary"; dq; lit ": "; dq; lit "Invalid document type"; dq;
      lit ", "; dq; lit "key_clauses"; dq; lit ": [], "; dq;
      lit "overall_risks"; dq; lit ": "; dq; dq; lit ", "; dq;
      lit "missing_clauses"; dq; lit ": [], "; dq;
      lit "contract_quality_score"; dq; lit ": 0, "; dq; lit "unusual_terms";
      dq; lit ": [], "; dq; lit "industry_comparison_overview"; dq; lit ": ";
      dq; dq; lit " }"; nl;
      nl;
      lit "If it IS a legal document, analyze the sanitized contract text and produce:";
      nl;
      nl;
      lit "1. summary (5"; [8211%N]; lit "10 lines)"; nl;
      lit "2. key_clauses: list of clauses with details."; nl;
      lit "3. overall_risks"; nl;
      lit "4. missing_clauses"; nl;
      lit "5. contract_quality_score (0"; [8211%N]; lit "100)"; nl;
      lit "6. unusual_terms"; nl;
      lit "7. industry_comparison_overview"; nl;
      nl;
      lit "Output MUST be valid clean JSON with this structure:"; nl;
      nl;
      lit "{"; nl;
      lit "  "; dq; lit "is_legal_document"; dq; lit ": true,"; nl;
      lit "  "; dq; lit "summary"; dq; lit ": "; dq; dq; lit ","; nl;
      lit "  "; dq; lit "key_clauses"; dq; lit ": ["; nl;
      lit "    {"; nl;
      lit "      "; dq; lit "clause_number"; dq; lit ": 1,"; nl;
      lit "      "; dq; lit "title"; dq; lit ": "; dq; dq; lit ","; nl;
      lit "      "; dq; lit "text"; dq; lit ": "; dq;
      lit "extract the exact text"; dq; lit ","; nl;
      lit "      "; dq; lit "explanation"; dq; lit ": "; dq; dq; lit ","; nl;
      lit "      "; dq; lit "risks"; dq; lit ": "; dq; dq; lit ","; nl;
      lit "      "; dq; lit "is_unusual"; dq; lit ": "; dq; lit "yes/no"; dq;
      lit ","; nl;
      lit "      "; dq; lit "industry_normality"; dq; lit ": "; dq; dq;
      lit ","; nl;
      lit "      "; dq; lit "rewritten_safer_version"; dq; lit ": "; dq; dq;
      nl;
      lit "    }"; nl;
      lit "  ],"; nl;
      lit "  "; dq; lit "overall_risks"; dq; lit ": "; dq; dq; lit ","; nl;
      lit "  "; dq; lit "missing_clauses"; dq; lit ": [],"; nl;
      lit "  "; dq; lit "contract_quality_score"; dq; lit ": 0,"; nl;
      lit "  "; dq; lit "unusual_terms"; dq; lit ": [],"; nl;
      lit "  "; dq; lit "industry_comparison_overview"; dq; lit ": "; dq; dq;
      nl;
      lit "}"; nl;
      nl;
      lit "Sanitized text:"; nl;
      dq ].

Section Analyze.

(** [J]: the values [JSON.parse] returns; [E]: the values that are thrown,
    with [e.message].  [JSON_parse] returns a value or throws;
    [is_legal_document_false result] is [result.is_legal_document === false],
    an access that throws when [result] is [null]. *)
Variables J E : Type.
Variable mkError : jsstring -> E.
Variable message : E -> jsstring.
Variable generateContent : request -> promise E (option jsstring).
Variable JSON_parse : jsstring -> E + J.
Variable is_legal_document_false : J -> E + bool.

Definition analyze_request (safeText : jsstring) : request :=
  {| model := MODELS_TEXT;
     request_contents :=
       Prompt (prompt_head ++ firstn 40000 safeText ++ dq ++ nl);
     responseMimeType := Some (lit "application/json") |}.

(** The [try] block: what it returns ([inr]) or throws ([inl]). *)
Definition parse_result (text : jsstring) : E + J :=
  match JSON_parse text with
  | inl e => inl e
  | inr result =>
      match is_legal_document_false result with
      | inl e => inl e
      | inr true =>
          inl (mkError (lit "The uploaded document does not appear to be a legal contract."))
      | inr false => inr result
      end
  end.

Definition analyze_task (safeText : jsstring) : promise E J :=
  match generateContent (analyze_request safeText) with
  | Fulfilled response =>
      match response with
      | Some text =>
          if truthy text then
            match parse_result text with
            | inr result => Fulfilled result
            | inl e =>
                if includes (message e) (lit "legal contract") then Rejected e
                else Rejected (mkError (lit "Failed to parse analysis results."))
            end
          else Rejected (mkError (lit "Failed to generate analysis"))
      | None => Rejected (mkError (lit "Failed to generate analysis"))
      end
  | Rejected e => Rejected e
  | Pending => Pending
  end.

Definition analyze (contractText : jsstring) (w : world E) : promise E J * world E :=
  secureExecute mkError contractText (lit "Risk Analysis Phase 2") analyze_task w.

End Analyze.

End riskAnalysis.

(* ------------------------------------------------------------------ *)
(** ** Sample sessions, inputs and tasks *)

Module Demo.

(** Thrown values are their messages here. *)
Definition mkError (msg : jsstring) : jsstring := msg.

(** The world after one [initSession]. *)
Definition started : world jsstring :=
  snd (initSession (fun _ => 171%N) 1700000000000 initial).

(** A task that resolves with the length of what it is given. *)
Definition count_task (safeInput : jsstring) : promise jsstring nat :=
  Fulfilled (length safeInput).

(** A task that always fails. *)
Definition failing_task (safeInput : jsstring) : promise jsstring nat :=
  Rejected (lit "quota exceeded").

Definition ssn_input : jsstring := lit "SSN: 123-45-6789".

Definition long_input : jsstring := repeat 97%N (Z.to_nat 100001).

Definition card_input : jsstring := lit "4111 1111 1111 1111".

End Demo.

(* ------------------------------------------------------------------ *)
(** ** Sample files, model replies and texts *)

Module Samples.

Import contractParser.

(** Four PCM bytes (two samples) and the rate [generateAudioUrl] passes. *)
Definition pcm : Wav.bytes := [1; 0; 255; 127]%N.
Definition rate : Z := 24000.

(** A PDF, by its data URL. *)
Definition pdf : File jsstring :=
  {| type := lit "application/pdf";
     readAsText := NoEvent;
     readAsDataURL := Load (Some (lit "data:application/pdf;base64,JVBERi0xLjQK")) |}.

(** An empty text file. *)
Definition empty_txt : File jsstring :=
  {| type := lit "text/plain";
     readAsText := Load (Some (lit ""));
     readAsDataURL := NoEvent |}.

(** A model that echoes the length of the prompt it is given. *)
Definition echo_model (r : request) : promise jsstring (option jsstring) :=
  match request_contents r with
  | Prompt text => Fulfilled (Some (decimal (length text)))
  | Parts _ => Fulfilled (Some (lit "Hello"))
  end.

(** A model whose reply is always the same text. *)
Definition fixed_model (reply : jsstring) (r : request) :
    promise jsstring (option jsstring) :=
  Fulfilled (Some reply).

(** Parsed replies are kept as their text here; a reply is flagged when it
    has the word not in it. *)
Definition parse_any (text : jsstring) : jsstring + jsstring := inr text.

Definition flagged (result : jsstring) : jsstring + bool :=
  inr (includes result (lit "not")).

Definition message_of (e : jsstring) : jsstring := e.

(** A street address with a social security number right behind it. *)
Definition glued : jsstring := lit "1 Main St123-45-6789".

End Samples.

(* ------------------------------------------------------------------ *)
(** ** Session lifecycle and the guarded wrapper *)

Section Wrapper.

Variables T E : Type.
Variable mkError : jsstring -> E.

Local Abbreviation world := (world E).
Local Abbreviation secureExecute := (@secureExecute T E mkError).
Local Abbreviation reachable := (@reachable T E mkError).

Lemma task_calls_app (tr1 tr2 : list (event E)) :
  task_calls (tr1 ++ tr2) = task_calls tr1 ++ task_calls tr2.
Proof. unfold task_calls. apply flat_map_app. Qed.

Lemma redact_calls_app (tr1 tr2 : list (event E)) :
  redact_calls (tr1 ++ tr2) = redact_calls tr1 ++ redact_calls tr2.
Proof. unfold redact_calls. apply flat_map_app. Qed.

Lemma validateInput_session text (w : world) :
  currentSession (snd (validateInput text w)) = currentSession w.
Proof. unfold validateInput. destruct (_ >? _)%Z; reflexivity. Qed.

(** The identifier [initSession] returns: 16 bytes, two hexadecimal digits
    each. *)
Lemma padded_hex_length b :
  length (padStart 2 (N_of_ascii "0") (toString16 b)) = 2.
Proof. unfold padStart, toString16. destruct (b <? 16)%N; reflexivity. Qed.

Lemma initSession_id_length random now (w : world) :
  length (fst (initSession random now w)) = 32.
Proof.
  unfold initSession. cbn [fst seq map concat].
  rewrite !length_app, !padded_hex_length. reflexivity.
Qed.

Lemma secureExecute_session input taskName task (w : world) :
  currentSession (snd (secureExecute input taskName task w)) = currentSession w.
Proof.
  unfold SecurityLayer.secureExecute.
  destruct (negb _ || _); [reflexivity|].
  destruct (validateInput input _) as [valid w1] eqn:Hv.
  assert (Hs : currentSession w1 = currentSession w).
  { change w1 with (snd (valid, w1)). rewrite <- Hv.
    now rewrite validateInput_session. }
  destruct valid; cbn [negb]; [|exact Hs].
  destruct (task _); exact Hs.
Qed.

Lemma reachable_session_ok (w : world) :
  reachable w -> session_ok (currentSession w).
Proof.
  induction 1 as [|o w Hr IH].
  - reflexivity.
  - destruct o; cbn [run].
    + pose proof (initSession_id_length random now w) as Hl.
      unfold session_ok.
      change (currentSession (snd (initSession random now w)))
        with {| id := Some (fst (initSession random now w));
                isActive := true; startTime := now |}.
      cbn [id isActive]. split; [reflexivity|].
      destruct (fst (initSession random now w)); [discriminate Hl | reflexivity].
    + exact IH.
    + reflexivity.
    + now rewrite secureExecute_session.
Qed.

Lemma session_ok_inv s : session_ok s -> session_inv s.
Proof.
  unfold session_ok, session_inv. destruct (id s).
  - intros [Ha _]. split; [auto | discriminate].
  - intros Ha. split; [congruence|]. rewrite Ha. discriminate.
Qed.

(** The wrapper past both of its tests. *)
Lemma secureExecute_pass input taskName task (w : world) :
  isActive (currentSession w) = true ->
  falsy_id (id (currentSession w)) = false ->
  fst (validateInput input w) = true ->
  fst (secureExecute input taskName task w) = task (redactPII input) /\
  task_calls (trace (snd (secureExecute input taskName task w))) =
    task_calls (trace w) ++ [redactPII input] /\
  redact_calls (trace (snd (secureExecute input taskName task w))) =
    redact_calls (trace w) ++ [input].
Proof.
  intros Ha Hi Hv. unfold SecurityLayer.secureExecute.
  rewrite Ha, Hi. cbn [negb orb].
  unfold validateInput in *.
  destruct (_ >? _)%Z; [discriminate Hv|]. cbn [negb].
  destruct (task (redactPII input)); cbn [fst snd emit trace];
    rewrite ?task_calls_app, ?redact_calls_app; cbn; rewrite ?app_nil_r; auto.
Qed.

Lemma active_truthy (w : world) :
  reachable w -> isActive (currentSession w) = true ->
  falsy_id (id (currentSession w)) = false.
Proof.
  intros Hr Ha. apply reachable_session_ok in Hr. unfold session_ok in Hr.
  unfold falsy_id. destruct (id (currentSession w)).
  - destruct Hr as [_ ->]. reflexivity.
  - congruence.
Qed.

(** C1: under an active session and with an input that passes
    [validateInput], [secureExecute] ends exactly as the promise of
    [task (redactPII input)] ends (so it resolves with the task's value),
    and the one call of the task it makes has [redactPII input] as its
    argument. *)
Theorem secureExecute_runs_task_on_redacted :
  forall (w : world) input taskName task,
    reachable w ->
    isActive (currentSession w) = true ->
    fst (validateInput input w) = true ->
    fst (secureExecute input taskName task w) = task (redactPII input) /\
    task_calls (trace (snd (secureExecute input taskName task w))) =
      task_calls (trace w) ++ [redactPII input].
Proof.
  intros w input taskName task Hr Ha Hv.
  destruct (secureExecute_pass input taskName task w Ha (active_truthy Hr Ha) Hv)
    as (H1 & H2 & _).
  split; assumption.
Qed.

(** C2: without an active session [secureExecute] rejects with the
    no-active-session error and does nothing else: the world is the one it
    started from, so neither [redactPII] nor the task was called. *)
Theorem secureExecute_no_session :
  forall (w : world) input taskName task,
    isActive (currentSession w) = false \/ id (currentSession w) = None ->
    fst (secureExecute input taskName task w) =
      Rejected (mkError (lit "Security Error: No active session.")) /\
    snd (secureExecute input taskName task w) = w /\
    redact_calls (trace (snd (secureExecute input taskName task w))) =
      redact_calls (trace w) /\
    task_calls (trace (snd (secureExecute input taskName task w))) =
      task_calls (trace w).
Proof.
  intros w input taskName task Hn.
  assert (Hg : negb (isActive (currentSession w)) ||
               falsy_id (id (currentSession w)) = true).
  { destruct Hn as [-> | ->]; [reflexivity|]. apply orb_true_r. }
  unfold SecurityLayer.secureExecute. rewrite Hg. cbn [fst snd]. auto.
Qed.

(** C3: an input of more than 100,000 code units under an active session
    is rejected with the validation error, and neither the task nor
    [redactPII] is called with it. *)
Theorem secureExecute_input_too_large :
  forall (w : world) input taskName task,
    reachable w ->
    isActive (currentSession w) = true ->
    (Z.of_nat (length input) > 100000)%Z ->
    fst (secureExecute input taskName task w) =
      Rejected (mkError (lit "Security Error: Input validation failed (too large or unsafe).")) /\
    task_calls (trace (snd (secureExecute input taskName task w))) =
      task_calls (trace w) /\
    redact_calls (trace (snd (secureExecute input taskName task w))) =
      redact_calls (trace w).
Proof.
  intros w input taskName task Hr Ha Hl.
  unfold SecurityLayer.secureExecute.
  rewrite Ha, (active_truthy Hr Ha). cbn [negb orb].
  unfold validateInput, MAX_INPUT_CHARS.
  destruct (Z.gtb_spec (Z.of_nat (length input)) 100000) as [_|Hle]; [|lia].
  cbn [negb fst snd emit trace].
  rewrite !task_calls_app, !redact_calls_app. cbn. now rewrite !app_nil_r.
Qed.

(** C6: [validateInput] answers [false] exactly for inputs longer than
    100,000 code units; a string of exactly 100,000 passes, one of 100,001
    does not; it returns a boolean on every input. *)
Theorem validateInput_spec :
  forall (w : world) (text : jsstring),
    (fst (validateInput text w) = false <-> (Z.of_nat (length text) > 100000)%Z) /\
    (forall c, fst (validateInput (repeat c (Z.to_nat 100000)) w) = true) /\
    (forall c, fst (validateInput (repeat c (Z.to_nat 100001)) w) = false) /\
    (exists b w', validateInput text w = (b, w')).
Proof.
  intros w text. unfold validateInput, MAX_INPUT_CHARS.
  split; [split|split; [|split]].
  - destruct (Z.gtb_spec (Z.of_nat (length text)) 100000); [lia | discriminate].
  - intros H. destruct (Z.gtb_spec (Z.of_nat (length text)) 100000); [reflexivity | lia].
  - intros c. rewrite repeat_length, Z2Nat.id by lia. reflexivity.
  - intros c. rewrite repeat_length, Z2Nat.id by lia. reflexivity.
  - destruct (_ >? _)%Z; eauto.
Qed.

(** C7: when the task fails, [secureExecute] rejects with the very value
    the task failed with. *)
Theorem secureExecute_propagates_failure :
  forall (w : world) input taskName task (e : E),
    reachable w ->
    isActive (currentSession w) = true ->
    fst (validateInput input w) = true ->
    task (redactPII input) = Rejected e ->
    fst (secureExecute input taskName task w) = Rejected e.
Proof.
  intros w input taskName task e Hr Ha Hv He.
  destruct (secureExecute_pass input taskName task w Ha (active_truthy Hr Ha) Hv)
    as (H1 & _).
  now rewrite H1.
Qed.

(** C9: the identifier is present exactly while [isActive] is set: the
    initial record is inactive without identifier, [initSession] installs
    the identifier it returns and sets [isActive], [clearSession] resets
    both, [getSessionId] and [secureExecute] leave the record alone, and
    so the invariant holds in every reachable state. *)
Theorem session_invariant :
  (id (currentSession (@initial E)) = None /\
   isActive (currentSession (@initial E)) = false) /\
  (forall random now (w : world),
      id (currentSession (snd (initSession random now w))) =
        Some (fst (initSession random now w)) /\
      isActive (currentSession (snd (initSession random now w))) = true) /\
  (forall w : world,
      id (currentSession (clearSession w)) = None /\
      isActive (currentSession (clearSession w)) = false) /\
  (forall w : world, currentSession (snd (getSessionId w)) = currentSession w) /\
  (forall input taskName task (w : world),
      currentSession (snd (secureExecute input taskName task w)) = currentSession w) /\
  (forall w : world, reachable w -> session_inv (currentSession w)).
Proof.
  split; [split; reflexivity|].
  split; [intros; split; reflexivity|].
  split; [intros; split; reflexivity|].
  split; [reflexivity|].
  split; [intros; apply secureExecute_session|].
  intros w Hr. apply session_ok_inv, reachable_session_ok, Hr.
Qed.

(** C10: [clearSession] resets [isActive] and the identifier, after which
    [getSessionId] returns [null]; a second [clearSession] leaves the
    session record as the first one did. *)
Theorem clearSession_idempotent :
  forall w : world,
    isActive (currentSession (clearSession w)) = false /\
    id (currentSession (clearSession w)) = None /\
    fst (getSessionId (clearSession w)) = None /\
    currentSession (clearSession (clearSession w)) = currentSession (clearSession w).
Proof. intros w. repeat split. Qed.

End Wrapper.

(* ------------------------------------------------------------------ *)
(** ** Properties of the matcher *)

Module RegexFacts.

Lemma flat_map_ext_in {A B} (f g : A -> list B) (l : list A) :
  (forall a, In a l -> f a = g a) -> flat_map f l = flat_map g l.
Proof.
  induction l as [|a l IH]; intros H; cbn; [reflexivity|].
  rewrite (H a) by (left; reflexivity).
  rewrite IH; [reflexivity|]. intros b Hb. apply H. right. exact Hb.
Qed.

Lemma flat_map_map {A B C} (f : B -> list C) (g : A -> B) (l : list A) :
  flat_map f (map g l) = flat_map (fun a => f (g a)) l.
Proof. induction l as [|a l IH]; cbn; [reflexivity | now rewrite IH]. Qed.

Lemma map_flat_map {A B C} (g : B -> C) (f : A -> list B) (l : list A) :
  map g (flat_map f l) = flat_map (fun a => map g (f a)) l.
Proof.
  induction l as [|a l IH]; cbn; [reflexivity|]. now rewrite map_app, IH.
Qed.

(** *** A match never ends before it starts *)

Lemma rep_shrinking step g :
  shrinking step -> forall f mn mx, shrinking (rep step g f mn mx).
Proof.
  intros Hs f. induction f as [|f IH]; intros mn mx x y Hy; [destruct Hy|].
  assert (Hagain : forall y,
             In y (flat_map
                     (fun z => if (mn =? 0) && (length (rest z) =? length (rest x))
                               then [] else rep step g f (pred mn) (option_map pred mx) z)
                     (step x)) ->
             length (rest y) <= length (rest x)).
  { intros y' Hy'. apply in_flat_map in Hy'. destruct Hy' as (z & Hz & Hy').
    destruct (_ && _); [destruct Hy'|].
    apply IH in Hy'. apply Hs in Hz. lia. }
  assert (Hall : forall y,
             In y (if 0 <? mn then
                     flat_map
                       (fun z => if (mn =? 0) && (length (rest z) =? length (rest x))
                                 then [] else rep step g f (pred mn) (option_map pred mx) z)
                       (step x)
                   else if g then
                     flat_map
                       (fun z => if (mn =? 0) && (length (rest z) =? length (rest x))
                                 then [] else rep step g f (pred mn) (option_map pred mx) z)
                       (step x) ++ [x]
                   else
                     x :: flat_map
                       (fun z => if (mn =? 0) && (length (rest z) =? length (rest x))
                                 then [] else rep step g f (pred mn) (option_map pred mx) z)
                       (step x)) ->
             length (rest y) <= length (rest x)).
  { intros y' Hy'. destruct (0 <? mn); [now apply Hagain|].
    destruct g.
    - apply in_app_or in Hy'. destruct Hy' as [Hy'|[<-|[]]]; [now apply Hagain | lia].
    - destruct Hy' as [<-|Hy']; [lia | now apply Hagain]. }
  cbn [rep] in Hy. destruct mx as [[|m]|].
  - destruct Hy as [<-|[]]. lia.
  - now apply Hall.
  - now apply Hall.
Qed.

Lemma mt_shrinking ic r : shrinking (mt ic r).
Proof.
  induction r as [|cls|r1 IH1 r2 IH2|r1 IH1 r2 IH2|g mn mx r IH|r IH|];
    intros x y Hy; cbn [mt] in Hy.
  - destruct Hy as [<-|[]]. lia.
  - destruct x as [pw s]. cbn [rest snd] in *. destruct s as [|c s]; [destruct Hy|].
    destruct (class_match ic cls c); [|destruct Hy].
    destruct Hy as [<-|[]]. cbn. lia.
  - apply in_flat_map in Hy. destruct Hy as (z & Hz & Hy).
    apply IH1 in Hz. apply IH2 in Hy. lia.
  - apply in_app_or in Hy. destruct Hy as [Hy|Hy]; [now apply IH1 | now apply IH2].
  - revert Hy. now apply rep_shrinking.
  - now apply IH.
  - destruct (xorb _ _); [|destruct Hy]. destruct Hy as [<-|[]]. lia.
Qed.

(** *** The iteration bound of a quantifier is never reached

    With at least [rep_fuel min x] iterations allowed, allowing more does
    not change the result. *)

Lemma rep_fuel_enough step g :
  shrinking step ->
  forall f1 f2 mn mx x,
    rep_fuel mn x <= f1 -> rep_fuel mn x <= f2 ->
    rep step g f1 mn mx x = rep step g f2 mn mx x.
Proof.
  intros Hs f1. unfold rep_fuel.
  induction f1 as [|f1 IH]; intros f2 mn mx x H1 H2; [lia|].
  destruct f2 as [|f2]; [lia|].
  assert (Hagain :
    flat_map
      (fun z => if (mn =? 0) && (length (rest z) =? length (rest x))
                then [] else rep step g f1 (pred mn) (option_map pred mx) z)
      (step x) =
    flat_map
      (fun z => if (mn =? 0) && (length (rest z) =? length (rest x))
                then [] else rep step g f2 (pred mn) (option_map pred mx) z)
      (step x)).
  { apply flat_map_ext_in. intros z Hz. apply Hs in Hz.
    destruct (Nat.eqb_spec mn 0) as [->|Hmn]; cbn [andb].
    - destruct (Nat.eqb_spec (length (rest z)) (length (rest x))); [reflexivity|].
      apply IH; cbn; lia.
    - apply IH; lia. }
  cbn [rep]. destruct mx as [[|m]|]; [reflexivity| |]; now rewrite Hagain.
Qed.

Lemma rep_ext step g B :
  (forall x, step (ext B x) = map (ext B) (step x)) ->
  forall f mn mx x,
    rep step g f mn mx (ext B x) = map (ext B) (rep step g f mn mx x).
Proof.
  intros Hstep f. induction f as [|f IH]; intros mn mx x; [reflexivity|].
  assert (Hagain :
    flat_map
      (fun z => if (mn =? 0) && (length (rest z) =? length (rest (ext B x)))
                then [] else rep step g f (pred mn) (option_map pred mx) z)
      (step (ext B x)) =
    map (ext B)
      (flat_map
         (fun z => if (mn =? 0) && (length (rest z) =? length (rest x))
                   then [] else rep step g f (pred mn) (option_map pred mx) z)
         (step x))).
  { assert (Hlen : forall z,
              (length (rest (ext B z)) =? length (rest (ext B x))) =
              (length (rest z) =? length (rest x))).
    { intros z. unfold ext. cbn [rest snd]. rewrite !length_app.
      destruct (Nat.eqb_spec (length (rest z)) (length (rest x))) as [->|Hne].
      - apply Nat.eqb_refl.
      - apply Nat.eqb_neq. unfold rest in *. lia. }
    rewrite Hstep, flat_map_map, map_flat_map. apply flat_map_ext.
    intros z. rewrite Hlen.
    destruct (_ && _); [reflexivity | apply IH]. }
  cbn [rep]. destruct mx as [[|m]|]; [reflexivity| |];
    rewrite Hagain; destruct (0 <? mn); try reflexivity;
    destruct g; cbn [map]; now rewrite ?map_app.
Qed.

(** A code unit that is not a word character and that no class of the
    pattern accepts ends every match attempt like the end of the input. *)
Lemma mt_barrier ic r c B :
  is_word c = false -> rejects ic r c = true ->
  forall x, mt ic r (ext (c :: B) x) = map (ext (c :: B)) (mt ic r x).
Proof.
  intros Hw. induction r as [|cls|r1 IH1 r2 IH2|r1 IH1 r2 IH2|g mn mx r IH|r IH|];
    cbn [rejects]; intros Hr x; cbn [mt].
  - reflexivity.
  - destruct x as [pw s]. unfold ext. cbn [rest snd fst].
    destruct s as [|d s]; cbn [app].
    + apply negb_true_iff in Hr. now rewrite Hr.
    + destruct (class_match ic cls d); reflexivity.
  - apply andb_true_iff in Hr. destruct Hr as [Hr1 Hr2].
    rewrite IH1, flat_map_map, map_flat_map by assumption.
    apply flat_map_ext. intros z. now apply IH2.
  - apply andb_true_iff in Hr. destruct Hr as [Hr1 Hr2].
    now rewrite IH1, IH2, map_app.
  - rewrite rep_ext by (now apply IH).
    f_equal. apply rep_fuel_enough.
    + apply mt_shrinking.
    + unfold rep_fuel, ext. cbn [rest snd]. rewrite length_app. lia.
    + lia.
  - now apply IH.
  - destruct x as [pw s]. unfold ext. cbn [rest snd fst].
    replace (next_is_word (s ++ c :: B)) with (next_is_word s).
    + destruct (xorb pw (next_is_word s)); reflexivity.
    + destruct s; [cbn [app next_is_word]; now rewrite Hw | reflexivity].
Qed.

Lemma exec_barrier ic r c (B : jsstring) pw (s : jsstring) :
  is_word c = false -> rejects ic r c = true ->
  exec ic r pw (s ++ c :: B) = exec ic r pw s.
Proof.
  intros Hw Hr. unfold exec.
  pose proof (@mt_barrier ic r c B Hw Hr (pw, s)) as H.
  unfold ext at 1 in H. cbn [fst rest snd] in H.
  rewrite H.
  destruct (mt ic r (pw, s)) as [|y l]; cbn [map]; [reflexivity|].
  unfold ext. cbn [rest snd]. rewrite !length_app. f_equal.
  lia.
Qed.

Lemma exec_bound ic r pw s n : exec ic r pw s = Some n -> n <= length s.
Proof.
  unfold exec. destruct (mt ic r (pw, s)); [discriminate|].
  intros [= <-]. lia.
Qed.

(** The scan on a pattern that matches the empty string: the replacement
    goes in at every position where the matcher succeeds. *)
Example replace_empty_matches :
  replace false (Quant true 0 None (chr "b")) (lit "-") (lit "abc") = lit "-a--c-".
Proof. reflexivity. Qed.

(** Greedy and lazy quantifiers differ in the match that is found first. *)
Example greedy_then_lazy :
  exec false (Quant true 1 None (Chr digit)) false (lit "2024") = Some 4 /\
  exec false (Quant false 1 None (Chr digit)) false (lit "2024") = Some 1.
Proof. split; reflexivity. Qed.

End RegexFacts.

(* ------------------------------------------------------------------ *)
(** ** Properties of the replacement scan *)

Module ReplaceFacts.

Import RegexFacts.

Section Scan.

Variable ic : bool.
Variable r : regex.
Variable tok : jsstring.

(** Passing over the rest of a match. *)
Lemma replace_from_skip s :
  forall pw k, k <= length s ->
    replace_from ic r tok pw s k =
    replace_from ic r tok (word_before pw (firstn k s)) (skipn k s) 0.
Proof.
  induction s as [|c s IH]; intros pw k Hk.
  - destruct k; [reflexivity | cbn in Hk; lia].
  - destruct k as [|k]; [reflexivity|].
    cbn [replace_from firstn skipn]. rewrite IH by (cbn in Hk; lia).
    reflexivity.
Qed.

(** Where the pattern matches nowhere, the text is copied. *)
Lemma replace_from_no_match s :
  forall pw, find_from ic r pw s = None -> replace_from ic r tok pw s 0 = s.
Proof.
  induction s as [|c s IH]; intros pw H; cbn [find_from replace_from] in *.
  - destruct (exec ic r pw []); [discriminate | reflexivity].
  - destruct (exec ic r pw (c :: s)); [discriminate|].
    destruct (find_from ic r (is_word c) s) as [[i len]|] eqn:Hf; [discriminate|].
    now rewrite IH.
Qed.

(** The first match: what is before it is copied, the match itself is
    replaced by the token, and the scan goes on behind it. *)
Lemma replace_from_first_match s :
  forall pw i n,
    find_from ic r pw s = Some (i, S n) ->
    replace_from ic r tok pw s 0 =
    firstn i s ++ tok ++
    replace_from ic r tok (word_before pw (firstn (i + S n) s)) (skipn (i + S n) s) 0.
Proof.
  induction s as [|c s IH]; intros pw i n H.
  - cbn [find_from] in H. destruct (exec ic r pw []) as [len|] eqn:He; [|discriminate].
    apply exec_bound in He. cbn [length] in He. injection H as Hi Hl. lia.
  - cbn [find_from] in H. cbn [replace_from].
    destruct (exec ic r pw (c :: s)) as [len|] eqn:He.
    + injection H as Hi Hl. subst i len. apply exec_bound in He.
      cbn [length] in He.
      cbn [plus firstn skipn app]. f_equal.
      rewrite replace_from_skip by lia. reflexivity.
    + destruct (find_from ic r (is_word c) s) as [[j len]|] eqn:Hf; [|discriminate].
      injection H as Hi Hl. subst i len. rewrite (IH _ _ _ Hf). reflexivity.
Qed.

(** *** Delimiters the pattern cannot cross *)

Hypothesis never_empty : forall pw, exec ic r pw [] = None.

Lemma replace_from_cons pw d s :
  replace_from ic r tok pw (d :: s) 0 =
  match exec ic r pw (d :: s) with
  | Some len =>
      tok ++
      match len with
      | O => d :: replace_from ic r tok (is_word d) s 0
      | S n => replace_from ic r tok (is_word d) s n
      end
  | None => d :: replace_from ic r tok (is_word d) s 0
  end.
Proof. reflexivity. Qed.

Lemma replace_from_barrier c (B : jsstring) :
  is_word c = false -> rejects ic r c = true ->
  forall (a : jsstring) pw k, k <= length a ->
    replace_from ic r tok pw (a ++ c :: B) k =
    replace_from ic r tok pw a k ++
    replace_from ic r tok (word_before pw a) (c :: B) 0.
Proof.
  intros Hw Hr a. induction a as [|d a IH]; intros pw k Hk.
  - destruct k; [|cbn in Hk; lia].
    change (replace_from ic r tok pw [] 0) with
      (match exec ic r pw [] with Some _ => tok ++ [] | None => [] end).
    now rewrite never_empty.
  - cbn [length] in Hk. destruct k as [|k].
    + change ((d :: a) ++ c :: B) with (d :: (a ++ c :: B)).
      rewrite (replace_from_cons pw d (a ++ c :: B)), (replace_from_cons pw d a).
      change (d :: a ++ c :: B) with ((d :: a) ++ c :: B).
      rewrite (@exec_barrier ic r c B pw (d :: a) Hw Hr).
      change (word_before pw (d :: a)) with (word_before (is_word d) a).
      destruct (exec ic r pw (d :: a)) as [[|n]|] eqn:He.
      * rewrite IH by lia. now rewrite <- !app_assoc.
      * apply exec_bound in He. cbn [length] in He.
        rewrite IH by lia. now rewrite <- !app_assoc.
      * rewrite IH by lia. reflexivity.
    + change (replace_from ic r tok pw ((d :: a) ++ c :: B) (S k)) with
        (replace_from ic r tok (is_word d) (a ++ c :: B) k).
      change (replace_from ic r tok pw (d :: a) (S k)) with
        (replace_from ic r tok (is_word d) a k).
      rewrite IH by lia. reflexivity.
Qed.

(** A piece of text between two such delimiters in which the pattern
    matches nothing stays as it is, and the text before it and the text
    after it are rewritten as if each stood alone. *)
Lemma replace_delimited o c (u a b : jsstring) :
  is_word o = false -> rejects ic r o = true ->
  is_word c = false -> rejects ic r c = true ->
  (forall pw, find_from ic r pw (o :: u) = None) ->
  replace ic r tok (a ++ (o :: u ++ [c]) ++ b) =
  replace ic r tok a ++ (o :: u ++ [c]) ++ replace ic r tok b.
Proof.
  intros Hwo Hro Hwc Hrc Hu. unfold replace.
  replace (a ++ (o :: u ++ [c]) ++ b) with (a ++ o :: (u ++ c :: b))
    by (cbn [app]; now rewrite <- app_assoc).
  rewrite (@replace_from_barrier o (u ++ c :: b) Hwo Hro a false 0) by lia.
  f_equal.
  change (o :: u ++ c :: b) with ((o :: u) ++ c :: b).
  rewrite (@replace_from_barrier c b Hwc Hrc (o :: u) (word_before false a) 0) by lia.
  rewrite replace_from_no_match by apply Hu.
  rewrite (replace_from_cons _ c b).
  change (c :: b) with ([] ++ c :: b) at 1.
  rewrite (@exec_barrier ic r c b _ [] Hwc Hrc), never_empty, Hwc.
  cbn [app]. now rewrite <- app_assoc.
Qed.

End Scan.

End ReplaceFacts.

(* ------------------------------------------------------------------ *)
(** ** redactPII *)

Module Redaction.

Import RegexFacts ReplaceFacts.

Lemma redactPII_passes text : redactPII text = passes text.
Proof. destruct text; reflexivity. Qed.

Lemma has_match_false c text :
  has_match c text = false -> first_match c text = None.
Proof.
  unfold has_match, test, first_match, first_match_from.
  destruct (find_from _ _ false text); [discriminate | reflexivity].
Qed.

Lemma pass_no_match c text : has_match c text = false -> pass c text = text.
Proof.
  intros H. apply has_match_false in H.
  unfold pass, replace_with, replace.
  now apply replace_from_no_match.
Qed.

(** No pattern of the table matches the empty string at the end of the
    input. *)
Lemma never_empty c pw :
  exec (fst (PII_PATTERNS c)) (snd (PII_PATTERNS c)) pw [] = None.
Proof. destruct c, pw; vm_compute; reflexivity. Qed.

Lemma braces_rejected c :
  rejects (fst (PII_PATTERNS c)) (snd (PII_PATTERNS c)) lbrace = true /\
  rejects (fst (PII_PATTERNS c)) (snd (PII_PATTERNS c)) rbrace = true.
Proof. destruct c; vm_compute; split; reflexivity. Qed.

Lemma token_label c : token c = lbrace :: label c ++ [rbrace].
Proof. destruct c; reflexivity. Qed.

(** No pattern matches inside a token. *)
Lemma token_inert c t pw :
  find_from (fst (PII_PATTERNS c)) (snd (PII_PATTERNS c)) pw (lbrace :: label t) = None.
Proof. destruct c, t, pw; vm_compute; reflexivity. Qed.

(** A token in the text splits every pass. *)
Lemma pass_token c t (a b : jsstring) :
  pass c (a ++ token t ++ b) = pass c a ++ token t ++ pass c b.
Proof.
  unfold pass, replace_with. rewrite (token_label t).
  destruct (braces_rejected c) as [Hl Hr].
  apply replace_delimited; try assumption; try reflexivity.
  - apply never_empty.
  - intros pw. apply token_inert.
Qed.

Lemma passes_token t (a b : jsstring) :
  passes (a ++ token t ++ b) = passes a ++ token t ++ passes b.
Proof. unfold passes. now rewrite !pass_token. Qed.

Lemma firstn_length_app {A} (a b : list A) : firstn (length a) (a ++ b) = a.
Proof. induction a as [|x a IH]; cbn; [reflexivity | now rewrite IH]. Qed.

Lemma skipn_length_app {A} (a b : list A) : skipn (length a) (a ++ b) = b.
Proof. induction a as [|x a IH]; cbn; [reflexivity | exact IH]. Qed.

(** C4, as the code has it: [redactPII] is the five passes in the order
    EMAIL, PHONE, SSN, CREDIT_CARD, ADDRESS, each over the result of the one
    before; wherever a pass stands in its text, the next match of its
    pattern is replaced by the token of its category, what is before the
    match is kept, and the pass goes on behind the match, so every match the
    scan finds is replaced; the token of CREDIT_CARD is [{REDACTED_CC}], and
    the tokens of the other categories carry their names. *)
Theorem redactPII_replaces_matches :
  (forall text,
      redactPII text =
      pass ADDRESS (pass CREDIT_CARD (pass SSN (pass PHONE (pass EMAIL text))))) /\
  (forall c text, pass c text = pass_from c false text) /\
  (forall c pw (pre m post : jsstring),
      m <> [] ->
      first_match_from c pw (pre ++ m ++ post) = Some (length pre, length m) ->
      pass_from c pw (pre ++ m ++ post) =
      pre ++ token c ++ pass_from c (word_before pw (pre ++ m)) post) /\
  token EMAIL = lit "{REDACTED_EMAIL}" /\
  token PHONE = lit "{REDACTED_PHONE}" /\
  token SSN = lit "{REDACTED_SSN}" /\
  token CREDIT_CARD = lit "{REDACTED_CC}" /\
  token ADDRESS = lit "{REDACTED_ADDRESS}" /\
  redactPII (lit "4111 1111 1111 1111") = lit "{REDACTED_CC}".
Proof.
  split; [exact redactPII_passes|].
  split; [reflexivity|].
  split; [|repeat split; vm_compute; reflexivity].
  intros c pw pre m post Hm Hf.
  destruct m as [|x m]; [congruence|]. cbn [length] in Hf.
  unfold first_match_from in Hf. unfold pass_from.
  rewrite (@replace_from_first_match _ _ (token c) _ _ _ _ Hf).
  rewrite (firstn_length_app pre).
  replace (length pre + S (length m)) with (length (pre ++ x :: m))
    by (rewrite length_app; reflexivity).
  replace (pre ++ (x :: m) ++ post) with ((pre ++ x :: m) ++ post)
    by (now rewrite <- app_assoc).
  rewrite firstn_length_app, skipn_length_app.
  reflexivity.
Qed.

(** C5: the two end-to-end scenarios. *)
Theorem redactPII_scenarios :
  redactPII (lit "Contact me at jane@example.com or 555-123-4567") =
    lit "Contact me at {REDACTED_EMAIL} or {REDACTED_PHONE}" /\
  redactPII (lit "SSN: 123-45-6789") = lit "SSN: {REDACTED_SSN}".
Proof. split; vm_compute; reflexivity. Qed.

(** C8: a string in which none of the five patterns has a match is
    returned as it is; the empty string gives the empty string; and a token
    in the input, as in text that was redacted before, stays where it is,
    with the text before it and the text after it redacted as if each stood
    alone. *)
Theorem redactPII_fixpoints :
  (forall s, (forall c, has_match c s = false) -> redactPII s = s) /\
  redactPII (lit "") = lit "" /\
  (forall c (a b : jsstring),
      redactPII (a ++ token c ++ b) = redactPII a ++ token c ++ redactPII b).
Proof.
  split; [|split; [reflexivity|]].
  - intros s H. rewrite redactPII_passes. unfold passes.
    rewrite (pass_no_match EMAIL) by apply H.
    rewrite (pass_no_match PHONE) by apply H.
    rewrite (pass_no_match SSN) by apply H.
    rewrite (pass_no_match CREDIT_CARD) by apply H.
    now rewrite (pass_no_match ADDRESS) by apply H.
  - intros c a b. rewrite !redactPII_passes. apply passes_token.
Qed.

End Redaction.

(* ------------------------------------------------------------------ *)
(** ** The theorems at sample inputs *)

Lemma started_reachable : @reachable nat jsstring Demo.mkError Demo.started.
Proof.
  exact (@reach_run nat jsstring Demo.mkError
           (InitSession _ _ (fun _ => 171%N) 1700000000000) initial
           (reach_initial nat Demo.mkError)).
Defined.

Lemma secureExecute_runs_task_on_redacted_witness :
  @reachable nat jsstring Demo.mkError Demo.started /\
  isActive (currentSession Demo.started) = true /\
  fst (validateInput Demo.ssn_input Demo.started) = true /\
  fst (secureExecute Demo.mkError Demo.ssn_input (lit "count") Demo.count_task Demo.started) =
    Demo.count_task (redactPII Demo.ssn_input) /\
  task_calls
    (trace (snd (secureExecute Demo.mkError Demo.ssn_input (lit "count")
                   Demo.count_task Demo.started))) =
    task_calls (trace Demo.started) ++ [redactPII Demo.ssn_input].
Proof.
  split; [exact started_reachable|].
  split; [reflexivity|].
  split; [reflexivity|].
  apply (@secureExecute_runs_task_on_redacted nat jsstring Demo.mkError
           Demo.started Demo.ssn_input (lit "count") Demo.count_task).
  - exact started_reachable.
  - reflexivity.
  - reflexivity.
Defined.

Lemma secureExecute_no_session_witness :
  (isActive (currentSession (@initial jsstring)) = false \/
   id (currentSession (@initial jsstring)) = None) /\
  fst (secureExecute Demo.mkError Demo.ssn_input (lit "count") Demo.count_task initial) =
    Rejected (Demo.mkError (lit "Security Error: No active session.")) /\
  snd (secureExecute Demo.mkError Demo.ssn_input (lit "count") Demo.count_task initial) =
    initial /\
  redact_calls
    (trace (snd (secureExecute Demo.mkError Demo.ssn_input (lit "count")
                   Demo.count_task initial))) =
    redact_calls (trace (@initial jsstring)) /\
  task_calls
    (trace (snd (secureExecute Demo.mkError Demo.ssn_input (lit "count")
                   Demo.count_task initial))) =
    task_calls (trace (@initial jsstring)).
Proof.
  split; [left; reflexivity|].
  apply (@secureExecute_no_session nat jsstring Demo.mkError
           initial Demo.ssn_input (lit "count") Demo.count_task).
  left. reflexivity.
Defined.

Lemma secureExecute_input_too_large_witness :
  @reachable nat jsstring Demo.mkError Demo.started /\
  isActive (currentSession Demo.started) = true /\
  (Z.of_nat (length Demo.long_input) > 100000)%Z /\
  fst (secureExecute Demo.mkError Demo.long_input (lit "count") Demo.count_task Demo.started) =
    Rejected (Demo.mkError
                (lit "Security Error: Input validation failed (too large or unsafe).")) /\
  task_calls
    (trace (snd (secureExecute Demo.mkError Demo.long_input (lit "count")
                   Demo.count_task Demo.started))) =
    task_calls (trace Demo.started) /\
  redact_calls
    (trace (snd (secureExecute Demo.mkError Demo.long_input (lit "count")
                   Demo.count_task Demo.started))) =
    redact_calls (trace Demo.started).
Proof.
  split; [exact started_reachable|].
  split; [reflexivity|].
  split; [vm_compute; reflexivity|].
  apply (@secureExecute_input_too_large nat jsstring Demo.mkError
           Demo.started Demo.long_input (lit "count") Demo.count_task).
  - exact started_reachable.
  - reflexivity.
  - vm_compute. reflexivity.
Defined.

Lemma validateInput_spec_witness :
  (Z.of_nat (length Demo.long_input) > 100000)%Z /\
  fst (validateInput Demo.long_input Demo.started) = false.
Proof.
  split; [vm_compute; reflexivity|].
  apply (proj1 (@validateInput_spec jsstring Demo.started Demo.long_input)).
  vm_compute. reflexivity.
Defined.

Lemma secureExecute_propagates_failure_witness :
  @reachable nat jsstring Demo.mkError Demo.started /\
  isActive (currentSession Demo.started) = true /\
  fst (validateInput Demo.ssn_input Demo.started) = true /\
  Demo.failing_task (redactPII Demo.ssn_input) = Rejected (lit "quota exceeded") /\
  fst (secureExecute Demo.mkError Demo.ssn_input (lit "fail") Demo.failing_task Demo.started) =
    Rejected (lit "quota exceeded").
Proof.
  split; [exact started_reachable|].
  split; [reflexivity|].
  split; [reflexivity|].
  split; [reflexivity|].
  apply (@secureExecute_propagates_failure nat jsstring Demo.mkError
           Demo.started Demo.ssn_input (lit "fail") Demo.failing_task
           (lit "quota exceeded")).
  - exact started_reachable.
  - reflexivity.
  - reflexivity.
  - reflexivity.
Defined.

Lemma session_invariant_witness :
  @reachable nat jsstring Demo.mkError Demo.started /\
  session_inv (currentSession Demo.started).
Proof.
  split; [exact started_reachable|].
  apply (@session_invariant nat jsstring Demo.mkError).
  exact started_reachable.
Defined.

(** The credit-card pattern matches all of [4111 1111 1111 1111], and what
    [redactPII] puts in its place is [{REDACTED_CC}], which is not
    [{REDACTED_CREDIT_CARD}]. *)
Lemma credit_card_token_counterexample :
  first_match CREDIT_CARD Demo.card_input = Some (0, length Demo.card_input) /\
  redactPII Demo.card_input = lit "{REDACTED_CC}" /\
  redactPII Demo.card_input <> lit "{REDACTED_CREDIT_CARD}".
Proof.
  split; [vm_compute; reflexivity|].
  split; [vm_compute; reflexivity|].
  vm_compute. discriminate.
Qed.

Lemma redactPII_replaces_matches_witness :
  Demo.card_input <> [] /\
  first_match_from CREDIT_CARD false (lit "card " ++ Demo.card_input ++ lit ".") =
    Some (length (lit "card "), length Demo.card_input) /\
  pass_from CREDIT_CARD false (lit "card " ++ Demo.card_input ++ lit ".") =
    lit "card " ++ token CREDIT_CARD ++
    pass_from CREDIT_CARD
      (word_before false (lit "card " ++ Demo.card_input)) (lit ".").
Proof.
  split; [discriminate|].
  split; [vm_compute; reflexivity|].
  apply (proj1 (proj2 (proj2 Redaction.redactPII_replaces_matches))).
  - discriminate.
  - vm_compute. reflexivity.
Defined.

Lemma redactPII_fixpoints_witness :
  (forall c, has_match c (lit "Payment is due within 30 days.") = false) /\
  redactPII (lit "Payment is due within 30 days.") =
    lit "Payment is due within 30 days.".
Proof.
  split; [intros c; destruct c; vm_compute; reflexivity|].
  apply (proj1 Redaction.redactPII_fixpoints).
  intros c; destruct c; vm_compute; reflexivity.
Defined.

(* ------------------------------------------------------------------ *)
(** ** The WAV container *)

Module WavFacts.

Import Wav.

(** No write of [createWavFile] is out of range, and what it returns is
    the header followed by the PCM bytes. *)
Lemma createWavFile_layout pcm sr :
  createWavFile pcm sr = Some (header (length pcm) sr ++ pcm).
Proof.
  unfold createWavFile, header, le32, le16, setUint32, setUint16. cbv zeta.
  remember (length pcm) as n eqn:Hn.
  change (repeat 0%N (44 + n)) with (repeat 0%N 44 ++ repeat 0%N n).
  assert (Ht : length (repeat 0%N n) = n) by apply repeat_length.
  revert Ht. generalize (repeat 0%N n) as t. intros t Ht.
  repeat match goal with
         | |- context [Z.to_N (?x mod ?m)] =>
             generalize (Z.to_N (x mod m)); intro
         end.
  lazy -[N.modulo N.div set].
  unfold set. cbn [length Nat.add Nat.leb firstn skipn app bind].
  rewrite <- Hn, Ht, Nat.leb_refl.
  rewrite skipn_all2 by lia. rewrite app_nil_r.
  reflexivity.
Qed.

Lemma header_length n sr : length (header n sr) = 44.
Proof. reflexivity. Qed.

(** What [getUint32] reads from the four bytes of a value. *)
Lemma getUint32_le32 (a b : bytes) v :
  getUint32 (a ++ le32 v ++ b) (length a) = Some (Z.to_N (v mod 4294967296)).
Proof.
  unfold getUint32. rewrite skipn_app, skipn_all, Nat.sub_diag. cbn [app skipn le32].
  f_equal. set (x := Z.to_N (v mod 4294967296)).
  pose proof (N.div_mod' x 256) as H0.
  pose proof (N.div_mod' (x / 256) 256) as H1.
  pose proof (N.div_mod' (x / 65536) 256) as H2.
  replace (x / 65536 / 256)%N with (x / 16777216)%N in H2
    by (now rewrite N.Div0.div_div).
  replace (x / 256 / 256)%N with (x / 65536)%N in H1
    by (now rewrite N.Div0.div_div).
  lia.
Qed.

Lemma getUint16_le16 (a b : bytes) v :
  getUint16 (a ++ le16 v ++ b) (length a) = Some (Z.to_N (v mod 65536)).
Proof.
  unfold getUint16. rewrite skipn_app, skipn_all, Nat.sub_diag. cbn [app skipn le16].
  f_equal. pose proof (N.div_mod' (Z.to_N (v mod 65536)) 256). lia.
Qed.

Lemma getUint32_field (n : nat) sr (pcm : bytes) (off : nat) v :
  firstn 4 (skipn off (header n sr)) = le32 v ->
  off + 4 <= 44 ->
  getUint32 (header n sr ++ pcm) off = Some (Z.to_N (v mod 4294967296)).
Proof.
  intros Hf Ho.
  rewrite <- (firstn_skipn off (header n sr)).
  rewrite <- (firstn_skipn 4 (skipn off (header n sr))), Hf.
  rewrite <- !app_assoc.
  replace off with (length (firstn off (header n sr))) at 3
    by (rewrite length_firstn, header_length; lia).
  apply getUint32_le32.
Qed.

Lemma getUint16_field (n : nat) sr (pcm : bytes) (off : nat) v :
  firstn 2 (skipn off (header n sr)) = le16 v ->
  off + 2 <= 44 ->
  getUint16 (header n sr ++ pcm) off = Some (Z.to_N (v mod 65536)).
Proof.
  intros Hf Ho.
  rewrite <- (firstn_skipn off (header n sr)).
  rewrite <- (firstn_skipn 2 (skipn off (header n sr))), Hf.
  rewrite <- !app_assoc.
  replace off with (length (firstn off (header n sr))) at 3
    by (rewrite length_firstn, header_length; lia).
  apply getUint16_le16.
Qed.

(** X1: [createWavFile] never throws; the file is 44 bytes longer than the
    PCM data, which follows the header unchanged, and the header has the
    tags RIFF, WAVE, fmt and data at the offsets 0, 8, 12 and 36. *)
Theorem createWavFile_container :
  forall (pcm : bytes) (sampleRate : Z),
  exists out,
    createWavFile pcm sampleRate = Some out /\
    length out = 44 + length pcm /\
    skipn 44 out = pcm /\
    firstn 4 out = lit "RIFF" /\
    firstn 8 (skipn 8 out) = lit "WAVEfmt " /\
    firstn 4 (skipn 36 out) = lit "data".
Proof.
  intros pcm sr. exists (header (length pcm) sr ++ pcm).
  split; [apply createWavFile_layout|].
  split; [rewrite length_app, header_length; reflexivity|].
  repeat split; reflexivity.
Qed.

(** X2: for PCM data that leaves room for the 36 bytes between the two
    size fields, the ChunkSize field at offset 4 is the length of the file
    less 8 and the Subchunk2Size field at offset 40 is the length of the PCM
    data. *)
Theorem createWavFile_sizes :
  forall (pcm : bytes) (sampleRate : Z),
    (Z.of_nat (length pcm) + 36 < 4294967296)%Z ->
    exists out,
      createWavFile pcm sampleRate = Some out /\
      getUint32 out 4 = Some (N.of_nat (length out - 8)) /\
      getUint32 out 40 = Some (N.of_nat (length pcm)).
Proof.
  intros pcm sr Hn. exists (header (length pcm) sr ++ pcm).
  split; [apply createWavFile_layout|].
  rewrite length_app, header_length.
  rewrite (@getUint32_field (length pcm) sr pcm 4 (36 + Z.of_nat (length pcm))) by (reflexivity || lia).
  rewrite (@getUint32_field (length pcm) sr pcm 40 (Z.of_nat (length pcm))) by (reflexivity || lia).
  rewrite !Z.mod_small by lia.
  split; f_equal; lia.
Qed.

(** X3: the format fields: PCM (1), one channel, 16 bits per sample, block
    alignment 2, a 16 byte fmt chunk; for a sample rate below 2^31 the
    SampleRate field is the sample rate and the ByteRate field is twice
    that, the sample rate times the block alignment. *)
Theorem createWavFile_format :
  forall (pcm : bytes) (sampleRate : Z),
    (0 <= sampleRate < 2147483648)%Z ->
    exists out,
      createWavFile pcm sampleRate = Some out /\
      getUint32 out 16 = Some 16%N /\
      getUint16 out 20 = Some 1%N /\
      getUint16 out 22 = Some 1%N /\
      getUint32 out 24 = Some (Z.to_N sampleRate) /\
      getUint32 out 28 = Some (2 * Z.to_N sampleRate)%N /\
      getUint16 out 32 = Some 2%N /\
      getUint16 out 34 = Some 16%N.
Proof.
  intros pcm sr Hsr. exists (header (length pcm) sr ++ pcm).
  split; [apply createWavFile_layout|].
  rewrite (@getUint32_field (length pcm) sr pcm 16 16) by (reflexivity || lia).
  rewrite (@getUint16_field (length pcm) sr pcm 20 1) by (reflexivity || lia).
  rewrite (@getUint16_field (length pcm) sr pcm 22 1) by (reflexivity || lia).
  rewrite (@getUint32_field (length pcm) sr pcm 24 sr) by (reflexivity || lia).
  rewrite (@getUint32_field (length pcm) sr pcm 28 (sr * 1 * 16 / 8)) by (reflexivity || lia).
  rewrite (@getUint16_field (length pcm) sr pcm 32 (1 * 16 / 8)) by (reflexivity || lia).
  rewrite (@getUint16_field (length pcm) sr pcm 34 16) by (reflexivity || lia).
  replace (sr * 1 * 16 / 8)%Z with (2 * sr)%Z
    by (rewrite Z.mul_1_r; replace (sr * 16)%Z with (2 * sr * 8)%Z by lia;
        now rewrite Z.div_mul by lia).
  rewrite !Z.mod_small by lia.
  repeat split; try reflexivity; f_equal; lia.
Qed.

End WavFacts.

(* ------------------------------------------------------------------ *)
(** ** Reading the input *)

Module ParserFacts.

Import contractParser.

Lemma split_no_sep sep (s : jsstring) :
  existsb (N.eqb sep) s = false -> split sep s = [s].
Proof.
  induction s as [|c s IH]; cbn [existsb split]; [reflexivity|].
  intros H. apply orb_false_iff in H. destruct H as [Hc Hs].
  rewrite N.eqb_sym, Hc, (IH Hs). reflexivity.
Qed.

Lemma split_at_sep sep (p q : jsstring) :
  existsb (N.eqb sep) p = false -> split sep (p ++ sep :: q) = p :: split sep q.
Proof.
  induction p as [|c p IH]; cbn [existsb split app].
  - intros _. now rewrite N.eqb_refl.
  - intros H. apply orb_false_iff in H. destruct H as [Hc Hs].
    rewrite N.eqb_sym, Hc, (IH Hs). reflexivity.
Qed.

Section Parser.

Variable E : Type.
Variable mkError : jsstring -> E.
Variable generateContent : request -> promise E (option jsstring).

Local Abbreviation File := (File E).
Local Abbreviation fileToBase64 := (@fileToBase64 E mkError).
Local Abbreviation parse := (@parse E mkError generateContent).

Lemma fileToBase64_of_data_url (file : File) prefix payload :
  readAsDataURL file = Load (Some (prefix ++ lit "," ++ payload)) ->
  existsb (N.eqb 44) prefix = false ->
  existsb (N.eqb 44) payload = false ->
  fileToBase64 file = Fulfilled (Some payload).
Proof.
  intros Hr Hp Hq. unfold contractParser.fileToBase64. rewrite Hr.
  change (N_of_ascii ",") with 44%N. change (lit ",") with [44%N].
  cbn [app]. rewrite split_at_sep by assumption.
  now rewrite split_no_sep.
Qed.

(** X4: [fileToBase64] resolves with what stands between the first comma
    of the data URL and the next one: for a data URL whose payload has no
    comma, as base64 has none, it is the whole payload; for a result without
    any comma it resolves with [undefined]. *)
Theorem fileToBase64_payload :
  forall (file : File) (result : jsstring),
    readAsDataURL file = Load (Some result) ->
    (existsb (N.eqb 44) result = false ->
       fileToBase64 file = Fulfilled None) /\
    (forall prefix payload,
       result = prefix ++ lit "," ++ payload ->
       existsb (N.eqb 44) prefix = false ->
       existsb (N.eqb 44) payload = false ->
       fileToBase64 file = Fulfilled (Some payload)).
Proof.
  intros file result Hr. split.
  - intros Hn. unfold contractParser.fileToBase64. rewrite Hr.
    change (N_of_ascii ",") with 44%N. now rewrite split_no_sep.
  - intros prefix payload -> Hp Hq.
    exact (fileToBase64_of_data_url file prefix payload Hr Hp Hq).
Qed.

(** X5: for a file that is not a PDF, [parse] resolves exactly when the
    reader loads a non-empty string, and then with that string; an empty
    file is rejected with "Failed to read file", and a read error with
    "File read error", whatever the reader's own error was. *)
Theorem parse_text_file :
  forall file : File,
    type file <> lit "application/pdf" ->
    (forall s, parse (inr file) = Fulfilled s <->
               (readAsText file = Load (Some s) /\ s <> [])) /\
    (readAsText file = Load (Some []) ->
       parse (inr file) = Rejected (mkError (lit "Failed to read file"))) /\
    (forall event, readAsText file = ReadError event ->
       parse (inr file) = Rejected (mkError (lit "File read error"))).
Proof.
  intros file Ht. unfold contractParser.parse.
  destruct (list_eq_dec N.eq_dec (type file) (lit "application/pdf")) as [Heq|_];
    [contradiction|].
  split; [|split].
  - intros s. split.
    + destruct (readAsText file) as [[[|c r]|]| |]; cbn [truthy]; try discriminate.
      intros [= <-]. split; [reflexivity | discriminate].
    + intros [-> Hs]. destruct s; [contradiction | reflexivity].
  - intros ->. reflexivity.
  - intros event ->. reflexivity.
Qed.

(** X6: for a PDF whose data URL has a comma-free payload behind its first
    comma, [parse] ends as the model call ends whose request carries that
    payload as inline [application/pdf] data, with an empty reply turned
    into the empty string. *)
Theorem parse_pdf :
  forall (file : File) prefix payload,
    type file = lit "application/pdf" ->
    readAsDataURL file = Load (Some (prefix ++ lit "," ++ payload)) ->
    existsb (N.eqb 44) prefix = false ->
    existsb (N.eqb 44) payload = false ->
    parse (inr file) =
    match generateContent
            {| model := MODELS_TEXT;
               request_contents :=
                 Parts [ InlineData (lit "application/pdf") (Some payload);
                         TextPart (lit "Extract all readable text from this PDF. Do not summarize. Return raw contract text only.") ];
               responseMimeType := None |} with
    | Fulfilled response => Fulfilled (text_or (lit "") response)
    | Rejected e => Rejected e
    | Pending => Pending
    end.
Proof.
  intros file prefix payload Ht Hr Hp Hq. unfold contractParser.parse.
  destruct (list_eq_dec N.eq_dec (type file) (lit "application/pdf")) as [_|Hne];
    [|contradiction].
  unfold extractPdfText.
  rewrite (fileToBase64_of_data_url file prefix payload Hr Hp Hq).
  reflexivity.
Qed.

End Parser.

End ParserFacts.

(* ------------------------------------------------------------------ *)
(** ** More on the session and the wrapper *)

Section Lifecycle.

Variables T E : Type.
Variable mkError : jsstring -> E.

Local Abbreviation world := (world E).
Local Abbreviation secureExecute := (@secureExecute T E mkError).

Lemma hex_digit_ok d : (d < 16)%N -> in_class hex_class (hex_digit d) = true.
Proof.
  intros Hd. unfold hex_digit, in_class, hex_class, in_range.
  cbn [existsb fst snd].
  destruct (N.ltb_spec d 10).
  - replace (48 <=? 48 + d)%N with true by (symmetry; apply N.leb_le; lia).
    replace (48 + d <=? 57)%N with true by (symmetry; apply N.leb_le; lia).
    reflexivity.
  - replace (97 <=? 87 + d)%N with true by (symmetry; apply N.leb_le; lia).
    replace (87 + d <=? 102)%N with true by (symmetry; apply N.leb_le; lia).
    apply orb_true_r.
Qed.

Lemma padded_hex_ok b :
  (b < 256)%N ->
  forallb (in_class hex_class) (padStart 2 (N_of_ascii "0") (toString16 b)) = true.
Proof.
  intros Hb. unfold padStart, toString16.
  destruct (N.ltb_spec b 16).
  - cbn [length Nat.sub repeat app forallb].
    rewrite hex_digit_ok by assumption. reflexivity.
  - cbn [length Nat.sub repeat app forallb].
    rewrite !hex_digit_ok; [reflexivity | |].
    + apply N.mod_lt. discriminate.
    + apply N.Div0.div_lt_upper_bound. lia.
Qed.

(** X7: whatever the session was, [initSession] returns 32 lower-case
    hexadecimal digits and leaves exactly that identifier installed, active
    and stamped with the current time, so that [getSessionId] returns it. *)
Theorem initSession_installs :
  forall (random : nat -> N) (now : Z) (w : world),
    length (fst (initSession random now w)) = 32 /\
    forallb (in_class hex_class) (fst (initSession random now w)) = true /\
    currentSession (snd (initSession random now w)) =
      {| id := Some (fst (initSession random now w));
         isActive := true; startTime := now |} /\
    fst (getSessionId (snd (initSession random now w))) =
      Some (fst (initSession random now w)).
Proof.
  intros random now w.
  split; [apply initSession_id_length|].
  split; [|split; reflexivity].
  unfold initSession. cbn [fst seq map concat].
  rewrite !forallb_app.
  rewrite !padded_hex_ok by (apply N.mod_lt; discriminate).
  reflexivity.
Qed.

Lemma validateInput_small text (w : world) :
  (Z.of_nat (length text) <= 100000)%Z -> validateInput text w = (true, w).
Proof.
  intros H. unfold validateInput, MAX_INPUT_CHARS.
  destruct (Z.gtb_spec (Z.of_nat (length text)) 100000); [lia | reflexivity].
Qed.

(** X8: the gate follows the last lifecycle call, whatever came before it:
    right after [initSession] an input of at most 100,000 code units is
    run and the wrapper ends as the task on the redacted input ends; right
    after [clearSession] the wrapper rejects and the task is not called. *)
Theorem gate_follows_lifecycle :
  forall (w : world) random now input taskName (task : jsstring -> promise E T),
    ((Z.of_nat (length input) <= 100000)%Z ->
       fst (secureExecute input taskName task (snd (initSession random now w))) =
         task (redactPII input)) /\
    fst (secureExecute input taskName task (clearSession w)) =
      Rejected (mkError (lit "Security Error: No active session.")) /\
    task_calls (trace (snd (secureExecute input taskName task (clearSession w)))) =
      task_calls (trace w).
Proof.
  intros w random now input taskName task. split; [|split].
  - intros Hl.
    apply (secureExecute_pass mkError input taskName task).
    + reflexivity.
    + pose proof (initSession_id_length random now w) as Hlen.
      change (id (currentSession (snd (initSession random now w))))
        with (Some (fst (initSession random now w))).
      cbn [falsy_id].
      destruct (fst (initSession random now w)); [discriminate Hlen | reflexivity].
    + now rewrite validateInput_small.
  - reflexivity.
  - cbn [SecurityLayer.secureExecute clearSession currentSession isActive noSession
           negb orb snd emit trace].
    rewrite task_calls_app. cbn. apply app_nil_r.
Qed.



(** When the wrapper resolves, the task resolved with that value on the
    redacted input. *)
Lemma secureExecute_fulfilled input taskName (task : jsstring -> promise E T)
    (w : world) v :
  fst (secureExecute input taskName task w) = Fulfilled v ->
  task (redactPII input) = Fulfilled v.
Proof.
  unfold SecurityLayer.secureExecute.
  destruct (negb _ || _); [discriminate|].
  destruct (validateInput input _) as [[|] w1]; cbn [negb]; [|discriminate].
  destruct (task (redactPII input)); cbn [fst]; congruence.
Qed.

End Lifecycle.

(* ------------------------------------------------------------------ *)
(** ** The services behind the wrapper *)

Module SearchFacts.

Import nlSearch.

Section Query.

Variable E : Type.
Variable mkError : jsstring -> E.
Variable generateContent : request -> promise E (option jsstring).

Local Abbreviation query := (@query E mkError generateContent).
Local Abbreviation query_task := (@query_task E generateContent).

(** X10: under an active session and for contract texts the wrapper
    accepts, [query] ends as the model call ends whose prompt is the
    question, as typed, and the first 20,000 code units of the redacted
    contract; so two contracts whose redactions agree on these code units
    get the same answer. *)
Theorem query_sees_redacted_prefix :
  forall (w : world E) question text1 text2,
    @reachable jsstring E mkError w ->
    isActive (currentSession w) = true ->
    fst (validateInput text1 w) = true ->
    fst (validateInput text2 w) = true ->
    firstn 20000 (redactPII text1) = firstn 20000 (redactPII text2) ->
    fst (query question text1 w) =
      match generateContent
              {| model := MODELS_TEXT;
                 request_contents :=
                   Prompt (lit "Answer this about the contract: " ++ question ++
                           nl ++ nl ++ lit "Contract: " ++
                           firstn 20000 (redactPII text1));
                 responseMimeType := None |} with
      | Fulfilled res => Fulfilled (text_or (lit "") res)
      | Rejected e => Rejected e
      | Pending => Pending
      end /\
    fst (query question text1 w) = fst (query question text2 w).
Proof.
  intros w question text1 text2 Hr Ha Hv1 Hv2 Hp.
  unfold nlSearch.query.
  destruct (@secureExecute_pass _ _ mkError text1 (lit "Simple Chat")
              (query_task question) w Ha (active_truthy Hr Ha) Hv1) as [H1 _].
  destruct (@secureExecute_pass _ _ mkError text2 (lit "Simple Chat")
              (query_task question) w Ha (active_truthy Hr Ha) Hv2) as [H2 _].
  rewrite H1, H2. unfold nlSearch.query_task, query_request. rewrite Hp.
  split; reflexivity.
Qed.

End Query.

End SearchFacts.

Module AnalysisFacts.

Import riskAnalysis.

Section Analyze.

Variables J E : Type.
Variable mkError : jsstring -> E.
Variable message : E -> jsstring.
Variable generateContent : request -> promise E (option jsstring).
Variable JSON_parse : jsstring -> E + J.
Variable is_legal_document_false : J -> E + bool.

Local Abbreviation analyze :=
  (@analyze J E mkError message generateContent JSON_parse is_legal_document_false).
Local Abbreviation analyze_task :=
  (@analyze_task J E mkError message generateContent JSON_parse is_legal_document_false).

Lemma analyze_task_fulfilled safeText result :
  analyze_task safeText = Fulfilled result ->
  is_legal_document_false result = inr false /\
  exists text, JSON_parse text = inr result.
Proof.
  unfold riskAnalysis.analyze_task, parse_result.
  destruct (generateContent _) as [[text|]| |]; try discriminate.
  destruct (truthy text); [|discriminate].
  destruct (JSON_parse text) as [e|r] eqn:Hp.
  - destruct (includes _ _); discriminate.
  - destruct (is_legal_document_false r) as [e|[|]] eqn:Hf.
    + destruct (includes _ _); discriminate.
    + destruct (includes _ _); discriminate.
    + intros [= <-]. split; [assumption | eauto].
Qed.

(** X11: whatever the session and the model do, [analyze] never resolves
    with a result that says [is_legal_document: false]: a result it
    resolves with was parsed from the model's reply and its
    [is_legal_document] is not [false]. *)
Theorem analyze_never_resolves_non_legal :
  forall (w : world E) contractText result,
    fst (analyze contractText w) = Fulfilled result ->
    is_legal_document_false result = inr false /\
    exists text, JSON_parse text = inr result.
Proof.
  intros w contractText result H. unfold riskAnalysis.analyze in H.
  apply secureExecute_fulfilled in H.
  now apply analyze_task_fulfilled in H.
Qed.

(** X12: when the reply of the model parses to a result with
    [is_legal_document: false], [analyze] rejects with the error of the
    [try] block itself, "The uploaded document does not appear to be a legal
    contract.": its message has the words the [catch] block looks for, so it
    is thrown on and not replaced by the parse-failure error. *)
Theorem analyze_rejects_non_legal :
  forall (w : world E) contractText text result,
    (forall msg, message (mkError msg) = msg) ->
    @reachable J E mkError w ->
    isActive (currentSession w) = true ->
    fst (validateInput contractText w) = true ->
    generateContent (analyze_request (redactPII contractText)) = Fulfilled (Some text) ->
    truthy text = true ->
    JSON_parse text = inr result ->
    is_legal_document_false result = inr true ->
    fst (analyze contractText w) =
      Rejected (mkError (lit "The uploaded document does not appear to be a legal contract.")).
Proof.
  intros w contractText text result Hm Hr Ha Hv Hg Ht Hp Hf.
  unfold riskAnalysis.analyze.
  destruct (@secureExecute_pass _ _ mkError contractText
              (lit "Risk Analysis Phase 2") analyze_task w Ha
              (active_truthy Hr Ha) Hv) as [H1 _].
  rewrite H1. unfold riskAnalysis.analyze_task, parse_result.
  rewrite Hg, Ht, Hp, Hf, Hm. reflexivity.
Qed.

End Analyze.

End AnalysisFacts.

(* ------------------------------------------------------------------ *)
(** ** Text the patterns cannot match *)

Module PlainText.

Import RegexFacts ReplaceFacts Redaction.

Section Keeps.

Variable Q : jsstring -> Prop.
Hypothesis Q_tail : forall c s, Q (c :: s) -> Q s.

Lemma rep_keeps step g :
  keeps Q step -> forall f mn mx, keeps Q (rep step g f mn mx).
Proof.
  intros Hs f. induction f as [|f IH]; intros mn mx x y Hy Hx; [destruct Hy|].
  assert (Hagain : forall y,
             In y (flat_map
                     (fun z => if (mn =? 0) && (length (rest z) =? length (rest x))
                               then [] else rep step g f (pred mn) (option_map pred mx) z)
                     (step x)) ->
             Q (rest y)).
  { intros y' Hy'. apply in_flat_map in Hy'. destruct Hy' as (z & Hz & Hy').
    destruct (_ && _); [destruct Hy'|].
    apply (IH _ _ _ _ Hy'). now apply (Hs x). }
  cbn [rep] in Hy. destruct mx as [[|m]|].
  - destruct Hy as [<-|[]]. assumption.
  - destruct (0 <? mn); [now apply Hagain|]. destruct g.
    + apply in_app_or in Hy. destruct Hy as [Hy|[<-|[]]]; [now apply Hagain | assumption].
    + destruct Hy as [<-|Hy]; [assumption | now apply Hagain].
  - destruct (0 <? mn); [now apply Hagain|]. destruct g.
    + apply in_app_or in Hy. destruct Hy as [Hy|[<-|[]]]; [now apply Hagain | assumption].
    + destruct Hy as [<-|Hy]; [assumption | now apply Hagain].
Qed.

Lemma mt_keeps ic r : keeps Q (mt ic r).
Proof.
  induction r as [|cls|r1 IH1 r2 IH2|r1 IH1 r2 IH2|g mn mx r IH|r IH|];
    intros x y Hy Hx; cbn [mt] in Hy.
  - destruct Hy as [<-|[]]. assumption.
  - destruct x as [pw s]. cbn [rest snd] in *. destruct s as [|c s]; [destruct Hy|].
    destruct (class_match ic cls c); [|destruct Hy].
    destruct Hy as [<-|[]]. cbn [snd]. exact (Q_tail Hx).
  - apply in_flat_map in Hy. destruct Hy as (z & Hz & Hy).
    apply (IH2 _ _ Hy). now apply (IH1 x).
  - apply in_app_or in Hy. destruct Hy as [Hy|Hy]; [now apply (IH1 x) | now apply (IH2 x)].
  - revert Hy Hx. now apply rep_keeps.
  - now apply (IH x).
  - destruct (xorb _ _); [|destruct Hy]. destruct Hy as [<-|[]]. assumption.
Qed.

End Keeps.

Lemma flat_map_nil {A B} (f : A -> list B) (l : list A) :
  (forall a, In a l -> f a = []) -> flat_map f l = [].
Proof.
  induction l as [|a l IH]; intros H; cbn; [reflexivity|].
  rewrite (H a) by (left; reflexivity). apply IH.
  intros b Hb. apply H. right. exact Hb.
Qed.

Lemma forallb_ext_in {A} (f g : A -> bool) (l : list A) :
  (forall a, In a l -> f a = g a) -> forallb f l = forallb g l.
Proof.
  induction l as [|a l IH]; intros H; cbn [forallb]; [reflexivity|].
  rewrite (H a) by (left; reflexivity). f_equal. apply IH.
  intros b Hb. apply H. right. exact Hb.
Qed.

Lemma in_class_sub cls P c :
  sub_class cls P = true -> in_class cls c = true -> in_class P c = true.
Proof.
  unfold sub_class, in_class. intros Hs Hc.
  apply existsb_exists in Hc. destruct Hc as (rg & Hin & Hr).
  rewrite forallb_forall in Hs. specialize (Hs rg Hin).
  apply existsb_exists in Hs. destruct Hs as (pr & Hp & Hle).
  apply existsb_exists. exists pr. split; [assumption|].
  unfold in_range in *. apply andb_true_iff in Hr, Hle.
  destruct Hr as [H1 H2], Hle as [H3 H4].
  apply N.leb_le in H1, H2, H3, H4.
  apply andb_true_iff. split; apply N.leb_le; lia.
Qed.

Lemma no_letters_swapcase P c :
  no_letters P = true -> in_class P (swapcase c) = true -> in_class P c = true.
Proof.
  intros Hn Hc.
  assert (Hl : forall d, in_class P d = true ->
                 ~ (65 <= d <= 90)%N /\ ~ (97 <= d <= 122)%N).
  { intros d Hd. unfold in_class in Hd. apply existsb_exists in Hd.
    destruct Hd as (pr & Hin & Hr). unfold no_letters in Hn.
    rewrite forallb_forall in Hn. specialize (Hn pr Hin).
    unfold in_range in Hr. apply andb_true_iff in Hr. destruct Hr as [H1 H2].
    apply N.leb_le in H1, H2.
    apply orb_true_iff in Hn. destruct Hn as [Hn|Hn].
    - apply orb_true_iff in Hn. destruct Hn as [Hn|Hn].
      + apply N.ltb_lt in Hn. lia.
      + apply andb_true_iff in Hn. destruct Hn as [Ha Hb].
        apply N.ltb_lt in Ha, Hb. lia.
    - apply N.ltb_lt in Hn. lia. }
  specialize (Hl _ Hc). revert Hc Hl. unfold swapcase.
  replace (in_class lower c) with ((97 <=? c) && (c <=? 122))%N
    by (unfold in_class, lower, in_range; cbn; now rewrite orb_false_r).
  replace (in_class upper c) with ((65 <=? c) && (c <=? 90))%N
    by (unfold in_class, upper, in_range; cbn; now rewrite orb_false_r).
  destruct (N.leb_spec 97 c), (N.leb_spec c 122), (N.leb_spec 65 c), (N.leb_spec c 90);
    cbn [andb]; intros Hc [Hu Hlo]; try assumption; exfalso; lia.
Qed.

Lemma class_match_needs ic cls P c :
  no_letters P = true -> sub_class cls P = true ->
  class_match ic cls c = true -> in_class P c = true.
Proof.
  intros Hn Hs Hc. unfold class_match in Hc. apply orb_true_iff in Hc.
  destruct Hc as [Hc|Hc].
  - now apply (in_class_sub cls).
  - apply andb_true_iff in Hc. destruct Hc as [_ Hc].
    apply no_letters_swapcase; [assumption|]. now apply (in_class_sub cls).
Qed.

(** A pattern that needs a code unit of [P] has no match in a text
    without one. *)
Lemma needs_no_match ic P r :
  no_letters P = true -> needs P r = true ->
  forall x, Forall (fun c => in_class P c = false) (rest x) -> mt ic r x = [].
Proof.
  intros Hn. induction r as [|cls|r1 IH1 r2 IH2|r1 IH1 r2 IH2|g mn mx r IH|r IH|];
    cbn [needs]; intros Hr x Hx; try discriminate; cbn [mt].
  - destruct x as [pw s]. cbn [rest snd] in *. destruct s as [|c s]; [reflexivity|].
    destruct (class_match ic cls c) eqn:Hc; [|reflexivity].
    apply (class_match_needs ic cls P c Hn Hr) in Hc.
    inversion Hx; subst. congruence.
  - apply orb_true_iff in Hr. destruct Hr as [Hr|Hr].
    + now rewrite IH1.
    + apply flat_map_nil. intros y Hy. apply IH2; [assumption|].
      revert Hy Hx. apply mt_keeps. intros c s H. now inversion H.
  - apply andb_true_iff in Hr. destruct Hr as [Hr1 Hr2].
    now rewrite IH1, IH2.
  - apply andb_true_iff in Hr. destruct Hr as [Hr Hr3].
    apply andb_true_iff in Hr. destruct Hr as [Hr1 Hr2].
    unfold rep_fuel. cbn [rep]. rewrite Hr1, (IH Hr3 x Hx). cbn [flat_map].
    destruct mx as [[|m]|]; [discriminate | reflexivity | reflexivity].
  - now apply IH.
Qed.

Lemma needs_find_from ic P r :
  no_letters P = true -> needs P r = true ->
  forall s pw, Forall (fun c => in_class P c = false) s -> find_from ic r pw s = None.
Proof.
  intros Hn Hr s. induction s as [|c s IH]; intros pw Hs; cbn [find_from];
    unfold exec; rewrite (needs_no_match ic P r Hn Hr (pw, _) Hs); [reflexivity|].
  inversion Hs; subst. now rewrite IH.
Qed.

(** X13: a text without a digit and without an at sign is returned by
    [redactPII] as it is: each of the five patterns needs one of them. *)
Theorem redactPII_keeps_plain_text :
  forall text,
    forallb (fun c => negb (in_class digit c) && negb (c =? 64)%N) text = true ->
    redactPII text = text.
Proof.
  intros text H.
  assert (Hs : Forall (fun c => in_class pii_chars c = false) text).
  { apply Forall_forall. intros c Hc. rewrite forallb_forall in H.
    specialize (H c Hc). apply andb_true_iff in H. destruct H as [Hd Ha].
    apply negb_true_iff in Hd, Ha. unfold pii_chars, in_class in *.
    rewrite existsb_app, Hd. cbn [existsb in_range fst snd orb].
    rewrite orb_false_r. apply andb_false_iff. cbn [fst snd].
    apply N.eqb_neq in Ha.
    destruct (N.leb_spec 64 c); [right; apply N.leb_gt; lia | left; reflexivity]. }
  assert (Hm : forall c, has_match c text = false).
  { intros c. unfold has_match, test.
    rewrite (needs_find_from (fst (PII_PATTERNS c)) pii_chars (snd (PII_PATTERNS c)));
      [reflexivity | reflexivity | destruct c; vm_compute; reflexivity | assumption]. }
  rewrite redactPII_passes. unfold passes.
  rewrite (pass_no_match EMAIL) by apply Hm.
  rewrite (pass_no_match PHONE) by apply Hm.
  rewrite (pass_no_match SSN) by apply Hm.
  rewrite (pass_no_match CREDIT_CARD) by apply Hm.
  now rewrite (pass_no_match ADDRESS) by apply Hm.
Qed.

End PlainText.

(* ------------------------------------------------------------------ *)
(** ** An e-mail address on its own *)

Module EmailFacts.

Import RegexFacts ReplaceFacts Redaction.

Lemma class_match_plain cls c : class_match false cls c = in_class cls c.
Proof. unfold class_match. cbn [andb]. apply orb_false_r. Qed.

Lemma single_class c d : in_class [(d, d)] c = true -> c = d.
Proof.
  unfold in_class, in_range. cbn [existsb fst snd]. rewrite orb_false_r.
  intros H. apply andb_true_iff in H. destruct H as [H1 H2].
  apply N.leb_le in H1, H2. lia.
Qed.

(** A greedy quantifier over a single class, without an upper bound. *)
Lemma rep_greedy cls (s : jsstring) :
  forall f mn pw,
    rep_fuel mn (pw, s) <= f ->
    rep (mt false (Chr cls)) true f mn None (pw, s) = greedy_ends cls pw s mn.
Proof.
  unfold rep_fuel. cbn [rest snd].
  induction s as [|c s IH]; intros f mn pw Hf; (destruct f as [|f]; [lia|]).
  - cbn [rep mt rest snd flat_map greedy_ends app].
    destruct mn; reflexivity.
  - cbn [rep mt rest snd greedy_ends].
    destruct (class_match false cls c).
    + cbn [flat_map rest snd length].
      replace (length s =? S (length s)) with false
        by (symmetry; apply Nat.eqb_neq; lia).
      rewrite andb_false_r, app_nil_r. cbn [option_map].
      rewrite IH by (cbn [length] in Hf; lia).
      destruct mn; cbn [Nat.ltb Nat.leb Nat.eqb]; [reflexivity | now rewrite app_nil_r].
    + cbn [flat_map app]. destruct mn; reflexivity.
Qed.

Lemma mt_greedy cls mn pw (s : jsstring) :
  mt false (Quant true mn None (Chr cls)) (pw, s) = greedy_ends cls pw s mn.
Proof. cbn [mt]. apply rep_greedy. lia. Qed.

Lemma greedy_ends_stop cls pw (s : jsstring) :
  stops cls s -> greedy_ends cls pw s 0 = [(pw, s)].
Proof.
  destruct s as [|d s]; cbn [stops greedy_ends Nat.eqb]; [reflexivity|].
  now intros ->.
Qed.

(** The first end state of a greedy run is behind the whole run. *)
Lemma greedy_ends_head cls (run after : jsstring) :
  forallb (in_class cls) run = true -> run <> [] -> stops cls after ->
  forall pw mn, mn <= length run ->
    exists tl,
      greedy_ends cls pw (run ++ after) mn = (word_before pw run, after) :: tl.
Proof.
  intros Hrun Hne Hstop. induction run as [|c run IH]; [contradiction|].
  intros pw mn Hmn. cbn [forallb] in Hrun. apply andb_true_iff in Hrun.
  destruct Hrun as [Hc Hrun]. cbn [app greedy_ends].
  rewrite class_match_plain, Hc.
  change (word_before pw (c :: run)) with (word_before (is_word c) run).
  destruct run as [|c2 run].
  - cbn [app length] in *. replace (pred mn) with 0 by lia.
    rewrite greedy_ends_stop by assumption. cbn [app word_before fold_left]. eauto.
  - destruct (IH Hrun ltac:(discriminate) (is_word c) (pred mn)) as [tl Htl].
    { cbn [length] in *. lia. }
    rewrite Htl. cbn [app]. eauto.
Qed.

Lemma greedy_ends_keeps (P : cu -> Prop) cls (s : jsstring) :
  Forall P s ->
  forall pw mn y, In y (greedy_ends cls pw s mn) -> Forall P (rest y).
Proof.
  induction 1 as [|c s Hc Hs IH]; intros pw mn y Hy; cbn [greedy_ends] in Hy.
  - destruct (mn =? 0); [|destruct Hy]. destruct Hy as [<-|[]]. constructor.
  - assert (Hhere : In y (if mn =? 0 then [(pw, c :: s)] else []) ->
                    Forall P (rest y)).
    { destruct (mn =? 0); [|intros []]. intros [<-|[]]. now constructor. }
    destruct (class_match false cls c); [|now apply Hhere].
    apply in_app_or in Hy. destruct Hy as [Hy|Hy]; [now apply (IH _ _ _ Hy) | now apply Hhere].
Qed.

(** The end states of the domain part over [domain.tld]: first those within
    the top-level name, then the one in front of its dot. *)
Lemma greedy_ends_domain (domain tld : jsstring) :
  forallb (in_class domain_class) domain = true -> domain <> [] ->
  forall pw mn, mn <= 1 ->
    exists tl,
      greedy_ends domain_class pw (domain ++ 46%N :: tld) mn =
      greedy_ends domain_class false tld 0 ++
      (word_before pw domain, 46%N :: tld) :: tl.
Proof.
  intros Hd Hne. induction domain as [|c domain IH]; [contradiction|].
  intros pw mn Hmn. cbn [forallb] in Hd. apply andb_true_iff in Hd.
  destruct Hd as [Hc Hd]. cbn [app greedy_ends].
  rewrite class_match_plain, Hc.
  change (word_before pw (c :: domain)) with (word_before (is_word c) domain).
  destruct domain as [|c2 domain].
  - cbn [app]. replace (pred mn) with 0 by lia.
    cbn [greedy_ends Nat.eqb word_before fold_left].
    change (class_match false domain_class 46) with true. cbn iota.
    change (is_word 46) with false.
    rewrite <- app_assoc. cbn [app]. eauto.
  - destruct (IH Hd ltac:(discriminate) (is_word c) (pred mn)) as [tl Htl]; [lia|].
    rewrite Htl, <- app_assoc. cbn [app]. eauto.
Qed.

Lemma flat_map_head {A B} (f : A -> list B) (l0 : list A) (z : A) (tl : list A) b tb :
  (forall a, In a l0 -> f a = []) -> f z = b :: tb ->
  exists t, flat_map f (l0 ++ z :: tl) = b :: t.
Proof.
  intros H0 Hz. rewrite flat_map_app, (PlainText.flat_map_nil f l0 H0).
  cbn [app flat_map]. rewrite Hz. cbn [app]. eauto.
Qed.

(** On an address that is the whole text the EMAIL pattern matches all of
    it at the first position. *)
Lemma email_exec (local domain tld : jsstring) :
  forallb (in_class local_class) local = true -> local <> [] ->
  forallb (in_class domain_class) domain = true -> domain <> [] ->
  forallb (in_class letter_class) tld = true -> 2 <= length tld ->
  exec false EMAIL_re false (local ++ lit "@" ++ domain ++ lit "." ++ tld) =
  Some (length (local ++ lit "@" ++ domain ++ lit "." ++ tld)).
Proof.
  intros Hl Hln Hd Hdn Ht Htn.
  change (lit "@") with [64%N]. change (lit ".") with [46%N]. cbn [app].
  set (K4 := mt false (Seq (Quant true 2 None (Chr letter_class)) Empty)).
  set (K3 := mt false (Seq (chr ".") (Seq (Quant true 2 None (Chr letter_class)) Empty))).
  set (K2 := mt false (Seq (Quant true 1 None (Chr domain_class))
                         (Seq (chr ".") (Seq (Quant true 2 None (Chr letter_class)) Empty)))).
  set (K1 := mt false (Seq (chr "@")
                         (Seq (Quant true 1 None (Chr domain_class))
                            (Seq (chr ".")
                               (Seq (Quant true 2 None (Chr letter_class)) Empty))))).
  (* the top-level name *)
  assert (H4 : forall pw, exists t, K4 (pw, tld) = (word_before pw tld, []) :: t).
  { intros pw.
    change (K4 (pw, tld))
      with (flat_map (mt false Empty)
              (mt false (Quant true 2 None (Chr letter_class)) (pw, tld))).
    rewrite mt_greedy.
    destruct (@greedy_ends_head letter_class tld [] Ht) with (pw := pw) (mn := 2)
      as [tl Htl]; [intros ->; cbn in Htn; lia | exact I | assumption |].
    rewrite app_nil_r in Htl. rewrite Htl. cbn [flat_map mt app]. eauto. }
  (* the dot in front of it *)
  assert (H3 : forall pw, exists t, K3 (pw, 46%N :: tld) = (word_before false tld, []) :: t).
  { intros pw.
    change (K3 (pw, 46%N :: tld)) with (K4 (false, tld) ++ []).
    destruct (H4 false) as [t Ht4]. rewrite Ht4. cbn [app]. eauto. }
  assert (H3nil : forall y, Forall (fun c => in_class letter_class c = true) (rest y) ->
                            K3 y = []).
  { intros [pw s] Hy. unfold K3. cbn [mt chr rest snd] in *.
    destruct s as [|c s]; [reflexivity|].
    inversion Hy as [|? ? Hc _]; subst.
    destruct (class_match false [(N_of_ascii ".", N_of_ascii ".")] c) eqn:Hm; [|reflexivity].
    exfalso. rewrite class_match_plain in Hm.
    apply single_class in Hm. subst c. vm_compute in Hc. discriminate Hc. }
  (* the domain *)
  assert (H2 : exists t, K2 (false, domain ++ 46%N :: tld) = (word_before false tld, []) :: t).
  { change (K2 (false, domain ++ 46%N :: tld))
      with (flat_map K3 (mt false (Quant true 1 None (Chr domain_class))
                           (false, domain ++ 46%N :: tld))).
    rewrite mt_greedy.
    destruct (@greedy_ends_domain domain tld Hd Hdn false 1) as [tl Htl]; [lia|].
    rewrite Htl.
    destruct (H3 (word_before false domain)) as [t3 Ht3].
    apply (flat_map_head K3 _ _ tl (tb := t3)); [|exact Ht3].
    intros y Hy. apply H3nil.
    apply (@greedy_ends_keeps (fun c => in_class letter_class c = true)
             domain_class tld) in Hy; [assumption|].
    apply Forall_forall. intros c Hc. rewrite forallb_forall in Ht. now apply Ht. }
  (* the at sign and the local part *)
  assert (H1 : forall pw, exists t,
               K1 (pw, 64%N :: domain ++ 46%N :: tld) = (word_before false tld, []) :: t).
  { intros pw.
    change (K1 (pw, 64%N :: domain ++ 46%N :: tld))
      with (K2 (false, domain ++ 46%N :: tld) ++ []).
    destruct H2 as [t Ht2]. rewrite Ht2. cbn [app]. eauto. }
  unfold exec.
  change (mt false EMAIL_re (false, local ++ 64%N :: domain ++ 46%N :: tld))
    with (flat_map K1 (mt false (Quant true 1 None (Chr local_class))
                         (false, local ++ 64%N :: domain ++ 46%N :: tld))).
  rewrite mt_greedy.
  destruct (@greedy_ends_head local_class local (64%N :: domain ++ 46%N :: tld) Hl Hln)
    with (pw := false) (mn := 1) as [tl Htl].
  { reflexivity. }
  { destruct local; [contradiction | cbn [length]; lia]. }
  rewrite Htl. cbn [flat_map].
  destruct (H1 (word_before false local)) as [t1 Ht1]. rewrite Ht1.
  cbn [app rest snd length]. now rewrite Nat.sub_0_r.
Qed.

(** X14: an e-mail address that is the whole text, with a non-empty local
    part over [a-zA-Z0-9._%+-], a non-empty domain over [a-zA-Z0-9.-] and a
    top-level name of two or more letters, is redacted to the EMAIL token
    and nothing else. *)
Theorem redactPII_email_address :
  forall local domain tld : jsstring,
    forallb (in_class local_class) local = true -> local <> [] ->
    forallb (in_class domain_class) domain = true -> domain <> [] ->
    forallb (in_class letter_class) tld = true -> 2 <= length tld ->
    redactPII (local ++ lit "@" ++ domain ++ lit "." ++ tld) = lit "{REDACTED_EMAIL}".
Proof.
  intros local domain tld Hl Hln Hd Hdn Ht Htn.
  pose proof (@email_exec local domain tld Hl Hln Hd Hdn Ht Htn) as He.
  rewrite redactPII_passes. unfold passes.
  assert (Hp : pass EMAIL (local ++ lit "@" ++ domain ++ lit "." ++ tld) = token EMAIL).
  { unfold pass, replace_with, replace. cbn [PII_PATTERNS fst snd].
    destruct (local ++ lit "@" ++ domain ++ lit "." ++ tld) as [|c s] eqn:Hs.
    { destruct local; [contradiction | discriminate Hs]. }
    rewrite replace_from_cons, He. cbn [length].
    rewrite replace_from_skip by lia.
    rewrite skipn_all.
    change (replace_from false EMAIL_re (token EMAIL)
              (word_before (is_word c) (firstn (length s) s)) [] 0)
      with (match exec false EMAIL_re (word_before (is_word c) (firstn (length s) s)) [] with
            | Some _ => token EMAIL ++ []
            | None => []
            end).
    rewrite (never_empty EMAIL). apply app_nil_r. }
  rewrite Hp. vm_compute. reflexivity.
Qed.

End EmailFacts.

(* ------------------------------------------------------------------ *)
(** ** Redacting twice *)

Module TwiceFacts.

(** X15: [redactPII] is not idempotent, and its output can still have a
    match of one of its patterns: a social security number right behind a
    street address has no word boundary in front and is left alone, and once
    the address is a token a second [redactPII] replaces it. *)
Theorem redactPII_not_idempotent :
  exists text,
    has_match SSN text = false /\
    has_match SSN (redactPII text) = true /\
    redactPII (redactPII text) <> redactPII text.
Proof.
  exists Samples.glued.
  split; [vm_compute; reflexivity|].
  split; [vm_compute; reflexivity|].
  vm_compute. discriminate.
Qed.

End TwiceFacts.

(* ------------------------------------------------------------------ *)
(** ** The further theorems at sample inputs *)

Lemma createWavFile_sizes_witness :
  (Z.of_nat (length Samples.pcm) + 36 < 4294967296)%Z /\
  exists out,
    Wav.createWavFile Samples.pcm Samples.rate = Some out /\
    Wav.getUint32 out 4 = Some (N.of_nat (length out - 8)) /\
    Wav.getUint32 out 40 = Some (N.of_nat (length Samples.pcm)).
Proof.
  split; [vm_compute; reflexivity|].
  apply (@WavFacts.createWavFile_sizes Samples.pcm Samples.rate).
  vm_compute. reflexivity.
Defined.

Lemma createWavFile_format_witness :
  (0 <= Samples.rate < 2147483648)%Z /\
  exists out,
    Wav.createWavFile Samples.pcm Samples.rate = Some out /\
    Wav.getUint32 out 16 = Some 16%N /\
    Wav.getUint16 out 20 = Some 1%N /\
    Wav.getUint16 out 22 = Some 1%N /\
    Wav.getUint32 out 24 = Some (Z.to_N Samples.rate) /\
    Wav.getUint32 out 28 = Some (2 * Z.to_N Samples.rate)%N /\
    Wav.getUint16 out 32 = Some 2%N /\
    Wav.getUint16 out 34 = Some 16%N.
Proof.
  split; [unfold Samples.rate; lia|].
  apply (@WavFacts.createWavFile_format Samples.pcm Samples.rate).
  unfold Samples.rate. lia.
Defined.

Lemma fileToBase64_payload_witness :
  contractParser.readAsDataURL Samples.pdf =
    contractParser.Load (Some (lit "data:application/pdf;base64,JVBERi0xLjQK")) /\
  contractParser.fileToBase64 Demo.mkError Samples.pdf =
    Fulfilled (Some (lit "JVBERi0xLjQK")).
Proof.
  split; [reflexivity|].
  apply (proj2 (@ParserFacts.fileToBase64_payload jsstring Demo.mkError Samples.pdf
                  (lit "data:application/pdf;base64,JVBERi0xLjQK") eq_refl)
           (lit "data:application/pdf;base64") (lit "JVBERi0xLjQK"));
    reflexivity.
Defined.

Lemma parse_text_file_witness :
  contractParser.type Samples.empty_txt <> lit "application/pdf" /\
  contractParser.parse Demo.mkError Samples.echo_model (inr Samples.empty_txt) =
    Rejected (Demo.mkError (lit "Failed to read file")).
Proof.
  assert (H : contractParser.type Samples.empty_txt <> lit "application/pdf")
    by discriminate.
  split; [exact H|].
  apply (proj1 (proj2 (@ParserFacts.parse_text_file jsstring Demo.mkError
                         Samples.echo_model Samples.empty_txt H))).
  reflexivity.
Defined.

Lemma parse_pdf_witness :
  contractParser.type Samples.pdf = lit "application/pdf" /\
  contractParser.parse Demo.mkError Samples.echo_model (inr Samples.pdf) =
    Fulfilled (lit "Hello").
Proof.
  split; [reflexivity|].
  rewrite (@ParserFacts.parse_pdf jsstring Demo.mkError Samples.echo_model Samples.pdf
             (lit "data:application/pdf;base64") (lit "JVBERi0xLjQK"));
    reflexivity.
Defined.

Lemma gate_follows_lifecycle_witness :
  (Z.of_nat (length Demo.ssn_input) <= 100000)%Z /\
  fst (secureExecute Demo.mkError Demo.ssn_input (lit "count") Demo.count_task
         (snd (initSession (fun _ => 7%N) 0 (clearSession Demo.started)))) =
    Demo.count_task (redactPII Demo.ssn_input).
Proof.
  split; [vm_compute; discriminate|].
  apply (proj1 (@gate_follows_lifecycle nat jsstring Demo.mkError
                  (clearSession Demo.started) (fun _ => 7%N) 0%Z
                  Demo.ssn_input (lit "count") Demo.count_task)).
  vm_compute. discriminate.
Defined.


Lemma started_reachable_text : @reachable jsstring jsstring Demo.mkError Demo.started.
Proof.
  exact (@reach_run jsstring jsstring Demo.mkError
           (InitSession _ _ (fun _ => 171%N) 1700000000000) initial
           (reach_initial jsstring Demo.mkError)).
Defined.

Lemma query_sees_redacted_prefix_witness :
  firstn 20000 (redactPII Demo.ssn_input) =
    firstn 20000 (redactPII (lit "SSN: 987-65-4321")) /\
  fst (nlSearch.query Demo.mkError Samples.echo_model (lit "Whose is it?")
         Demo.ssn_input Demo.started) =
  fst (nlSearch.query Demo.mkError Samples.echo_model (lit "Whose is it?")
         (lit "SSN: 987-65-4321") Demo.started).
Proof.
  split; [vm_compute; reflexivity|].
  apply (@SearchFacts.query_sees_redacted_prefix jsstring Demo.mkError
           Samples.echo_model Demo.started (lit "Whose is it?")
           Demo.ssn_input (lit "SSN: 987-65-4321")).
  - exact started_reachable_text.
  - reflexivity.
  - reflexivity.
  - reflexivity.
  - vm_compute. reflexivity.
Defined.

Lemma analyze_never_resolves_non_legal_witness :
  fst (riskAnalysis.analyze Demo.mkError Samples.message_of
         (Samples.fixed_model (lit "a lease")) Samples.parse_any Samples.flagged
         Demo.ssn_input Demo.started) = Fulfilled (lit "a lease") /\
  Samples.flagged (lit "a lease") = inr false.
Proof.
  assert (H : fst (riskAnalysis.analyze Demo.mkError Samples.message_of
                     (Samples.fixed_model (lit "a lease")) Samples.parse_any
                     Samples.flagged Demo.ssn_input Demo.started) =
              Fulfilled (lit "a lease")) by reflexivity.
  split; [exact H|].
  exact (proj1 (@AnalysisFacts.analyze_never_resolves_non_legal
                  jsstring jsstring Demo.mkError Samples.message_of
                  (Samples.fixed_model (lit "a lease")) Samples.parse_any
                  Samples.flagged Demo.started Demo.ssn_input (lit "a lease") H)).
Defined.

Lemma analyze_rejects_non_legal_witness :
  Samples.flagged (lit "not a contract") = inr true /\
  fst (riskAnalysis.analyze Demo.mkError Samples.message_of
         (Samples.fixed_model (lit "not a contract")) Samples.parse_any Samples.flagged
         Demo.ssn_input Demo.started) =
    Rejected (Demo.mkError
                (lit "The uploaded document does not appear to be a legal contract.")).
Proof.
  split; [reflexivity|].
  apply (@AnalysisFacts.analyze_rejects_non_legal
           jsstring jsstring Demo.mkError Samples.message_of
           (Samples.fixed_model (lit "not a contract")) Samples.parse_any
           Samples.flagged Demo.started Demo.ssn_input
           (lit "not a contract") (lit "not a contract")).
  - reflexivity.
  - exact started_reachable_text.
  - reflexivity.
  - reflexivity.
  - reflexivity.
  - reflexivity.
  - reflexivity.
  - reflexivity.
Defined.

Lemma redactPII_keeps_plain_text_witness :
  forallb (fun c => negb (in_class digit c) && negb (c =? 64)%N)
    (lit "Payment is due within thirty days.") = true /\
  redactPII (lit "Payment is due within thirty days.") =
    lit "Payment is due within thirty days.".
Proof.
  split; [reflexivity|].
  apply (@PlainText.redactPII_keeps_plain_text (lit "Payment is due within thirty days.")).
  reflexivity.
Defined.

Lemma redactPII_email_address_witness :
  redactPII (lit "jane.doe+hr" ++ lit "@" ++ lit "mail.example-corp.co" ++ lit "." ++ lit "uk") =
    lit "{REDACTED_EMAIL}".
Proof.
  apply (@EmailFacts.redactPII_email_address
           (lit "jane.doe+hr") (lit "mail.example-corp.co") (lit "uk"));
    solve [reflexivity | discriminate | cbn; lia].
Defined.

(* ------------------------------------------------------------------ *)
(** ** Numbers in their usual forms *)

Module DigitFacts.

Import RegexFacts ReplaceFacts Redaction.

Lemma kind_word c : is_word (kind c) = is_word c.
Proof.
  unfold kind. destruct (in_class digit c) eqn:Hd; cbn [andb]; [|reflexivity].
  destruct (negb (c =? 49)%N); [|reflexivity].
  symmetry. apply (PlainText.in_class_sub digit word); [reflexivity | assumption].
Qed.

Lemma digit_cases c :
  in_class digit c = true -> c = 49%N \/ In c other_digits.
Proof.
  unfold in_class, digit, in_range. cbn [existsb fst snd]. rewrite orb_false_r.
  intros H. apply andb_true_iff in H. destruct H as [H1 H2].
  apply N.leb_le in H1, H2. unfold other_digits. cbn [In].
  assert (c = 48 \/ c = 49 \/ c = 50 \/ c = 51 \/ c = 52 \/ c = 53 \/ c = 54 \/
          c = 55 \/ c = 56 \/ c = 57)%N as Hc by lia.
  intuition auto.
Qed.

Lemma class_alike_kind ic cls :
  class_alike ic cls = true ->
  forall c, class_match ic cls (kind c) = class_match ic cls c.
Proof.
  intros Ha c. unfold kind.
  destruct (in_class digit c) eqn:Hd; cbn [andb]; [|reflexivity].
  destruct (N.eqb_spec c 49) as [->|Hne]; cbn [negb]; [reflexivity|].
  destruct (digit_cases c Hd) as [->|Hin]; [contradiction|].
  unfold class_alike in Ha. rewrite forallb_forall in Ha.
  symmetry. apply eqb_prop. now apply Ha.
Qed.

Lemma mapst_length f y : length (rest (mapst f y)) = length (rest y).
Proof. unfold mapst. cbn [rest snd]. apply length_map. Qed.

Lemma rep_map step g f :
  (forall x, step (mapst f x) = map (mapst f) (step x)) ->
  forall n mn mx x,
    rep step g n mn mx (mapst f x) = map (mapst f) (rep step g n mn mx x).
Proof.
  intros Hstep n. induction n as [|n IH]; intros mn mx x; [reflexivity|].
  assert (Hagain :
    flat_map
      (fun z => if (mn =? 0) && (length (rest z) =? length (rest (mapst f x)))
                then [] else rep step g n (pred mn) (option_map pred mx) z)
      (step (mapst f x)) =
    map (mapst f)
      (flat_map
         (fun z => if (mn =? 0) && (length (rest z) =? length (rest x))
                   then [] else rep step g n (pred mn) (option_map pred mx) z)
         (step x))).
  { rewrite Hstep, flat_map_map, map_flat_map. apply flat_map_ext.
    intros z. rewrite !mapst_length.
    destruct (_ && _); [reflexivity | apply IH]. }
  cbn [rep]. destruct mx as [[|m]|]; [reflexivity| |];
    rewrite Hagain; destruct (0 <? mn); try reflexivity;
    destruct g; cbn [map]; now rewrite ?map_app.
Qed.

(** A pattern cannot tell a text from the same text with every digit other
    than 1 replaced by 2. *)
Lemma mt_kind ic r :
  alike ic r = true ->
  forall x, mt ic r (mapst kind x) = map (mapst kind) (mt ic r x).
Proof.
  induction r as [|cls|r1 IH1 r2 IH2|r1 IH1 r2 IH2|g mn mx r IH|r IH|];
    cbn [alike]; intros Hr x; cbn [mt].
  - reflexivity.
  - destruct x as [pw s]. unfold mapst. cbn [rest snd fst map].
    destruct s as [|c s]; cbn [map]; [reflexivity|].
    rewrite (class_alike_kind ic cls Hr c), kind_word.
    destruct (class_match ic cls c); reflexivity.
  - apply andb_true_iff in Hr. destruct Hr as [Hr1 Hr2].
    rewrite IH1, flat_map_map, map_flat_map by assumption.
    apply flat_map_ext. intros z. now apply IH2.
  - apply andb_true_iff in Hr. destruct Hr as [Hr1 Hr2].
    now rewrite IH1, IH2, map_app.
  - rewrite rep_map by (now apply IH).
    unfold rep_fuel. now rewrite mapst_length.
  - now apply IH.
  - destruct x as [pw s]. unfold mapst. cbn [rest snd fst].
    replace (next_is_word (map kind s)) with (next_is_word s)
      by (destruct s; cbn [map next_is_word]; [reflexivity | now rewrite kind_word]).
    destruct (xorb pw (next_is_word s)); reflexivity.
Qed.

Lemma exec_kind ic r pw (s : jsstring) :
  alike ic r = true -> exec ic r pw (map kind s) = exec ic r pw s.
Proof.
  intros Hr. unfold exec.
  change (pw, map kind s) with (mapst kind (pw, s)).
  rewrite mt_kind by assumption.
  destruct (mt ic r (pw, s)) as [|y l]; cbn [map]; [reflexivity|].
  now rewrite mapst_length, length_map.
Qed.

Lemma find_from_kind ic r (s : jsstring) :
  alike ic r = true ->
  forall pw, find_from ic r pw (map kind s) = find_from ic r pw s.
Proof.
  intros Hr. induction s as [|c s IH]; intros pw.
  - cbn [map find_from]. change (@nil N) with (map kind []) at 1.
    now rewrite exec_kind.
  - cbn [map find_from]. change (kind c :: map kind s) with (map kind (c :: s)).
    rewrite exec_kind by assumption. now rewrite kind_word, IH.
Qed.

Lemma table_alike c : alike (fst (PII_PATTERNS c)) (snd (PII_PATTERNS c)) = true.
Proof. destruct c; vm_compute; reflexivity. Qed.

Lemma forallb_pointwise {A} (f g : A -> bool) (l : list A) :
  (forall a, f a = g a) -> forallb f l = forallb g l.
Proof.
  intros H. induction l as [|a l IH]; cbn [forallb]; [reflexivity|].
  now rewrite H, IH.
Qed.

Lemma whole_match_kind c before (text : jsstring) :
  whole_match c before (map kind text) = whole_match c before text.
Proof.
  unfold whole_match. rewrite exec_kind by apply table_alike. rewrite length_map.
  f_equal. apply forallb_pointwise. intros b. unfold first_match, first_match_from.
  now rewrite find_from_kind by apply table_alike.
Qed.

(** A pass over a text that is, as a whole, the match at its start. *)
Lemma pass_whole c (text : jsstring) :
  text <> [] ->
  exec (fst (PII_PATTERNS c)) (snd (PII_PATTERNS c)) false text = Some (length text) ->
  pass c text = token c.
Proof.
  intros Hne He. unfold pass, replace_with, replace.
  destruct text as [|x s]; [contradiction|].
  rewrite replace_from_cons, He. cbn [length].
  rewrite replace_from_skip by lia. rewrite skipn_all.
  change (replace_from (fst (PII_PATTERNS c)) (snd (PII_PATTERNS c)) (token c)
            (word_before (is_word x) (firstn (length s) s)) [] 0)
    with (match exec (fst (PII_PATTERNS c)) (snd (PII_PATTERNS c))
                  (word_before (is_word x) (firstn (length s) s)) [] with
          | Some _ => token c ++ []
          | None => []
          end).
  rewrite never_empty. apply app_nil_r.
Qed.

Lemma pass_none c (text : jsstring) : first_match c text = None -> pass c text = text.
Proof.
  intros H. unfold pass, replace_with, replace. now apply replace_from_no_match.
Qed.

Lemma whole_match_passes c before (text : jsstring) :
  whole_match c before text = true -> text <> [] ->
  (forall b, In b before -> pass b text = text) /\ pass c text = token c.
Proof.
  unfold whole_match. intros H Hne. apply andb_true_iff in H. destruct H as [Hb Hc].
  split.
  - intros b Hin. rewrite forallb_forall in Hb. specialize (Hb b Hin).
    apply pass_none. destruct (first_match b text); [discriminate | reflexivity].
  - apply pass_whole; [assumption|].
    destruct (exec _ _ false text) as [n|]; [|discriminate].
    apply Nat.eqb_eq in Hc. now subst n.
Qed.

Lemma all_bits_complete (bs : list bool) : In bs (all_bits (length bs)).
Proof.
  induction bs as [|b bs IH]; cbn [length all_bits]; [now left|].
  apply in_flat_map. exists bs. split; [assumption|].
  destruct b; cbn [In]; auto.
Qed.

Lemma kind_digits (ds : list cu) :
  forallb (in_class digit) ds = true ->
  map kind ds = map digit_of (map (fun d => (d =? 49)%N) ds).
Proof.
  induction ds as [|d ds IH]; cbn [forallb map]; [reflexivity|].
  intros H. apply andb_true_iff in H. destruct H as [Hd Hs].
  rewrite (IH Hs). f_equal. unfold kind, digit_of. rewrite Hd. cbn [andb].
  destruct (N.eqb_spec d 49) as [->|_]; reflexivity.
Qed.

Lemma phone_take_kind (ds : list cu) : phone_take (map kind ds) = phone_take ds.
Proof.
  destruct ds as [|d ds]; [reflexivity|]. cbn [map phone_take]. unfold kind.
  destruct (in_class digit d); cbn [andb]; [|reflexivity].
  destruct (N.eqb_spec d 49) as [->|_]; reflexivity.
Qed.

Lemma bare_rest_check_kind (text : jsstring) :
  bare_rest_check (map kind text) = bare_rest_check text.
Proof.
  unfold bare_rest_check, first_match, first_match_from.
  f_equal; apply forallb_pointwise; intros x;
    now rewrite find_from_kind by apply table_alike.
Qed.

Lemma digits_checked (check : list cu -> bool) (sizes : list nat) (ds : list cu) :
  (forall l, check (map kind l) = check l) ->
  forallb (fun n => forallb (fun bs => check (map digit_of bs)) (all_bits n)) sizes = true ->
  In (length ds) sizes -> forallb (in_class digit) ds = true ->
  check ds = true.
Proof.
  intros Hk Hall Hn Hd. rewrite <- Hk, (kind_digits ds Hd).
  rewrite forallb_forall in Hall. specialize (Hall _ Hn).
  rewrite forallb_forall in Hall. apply Hall.
  replace (length ds) with (length (map (fun d => (d =? 49)%N) ds))
    by (now rewrite length_map).
  apply all_bits_complete.
Qed.

Lemma no_at_kind (text : jsstring) : no_at (map kind text) = no_at text.
Proof.
  unfold no_at. induction text as [|c text IH]; cbn [map forallb]; [reflexivity|].
  rewrite IH. f_equal. f_equal. unfold kind.
  destruct (in_class digit c) eqn:Hd; cbn [andb]; [|reflexivity].
  destruct (negb (c =? 49)%N); [|reflexivity].
  destruct (N.eqb_spec c 64) as [->|_]; [discriminate Hd | reflexivity].
Qed.

Lemma no_at_email (text : jsstring) :
  no_at text = true -> pass EMAIL text = text.
Proof.
  intros H. apply pass_none. unfold first_match, first_match_from.
  apply (PlainText.needs_find_from false [(64, 64)]%N EMAIL_re);
    [reflexivity | reflexivity |].
  apply Forall_forall. intros c Hc. unfold no_at in H.
  rewrite forallb_forall in H. specialize (H c Hc).
  apply negb_true_iff, N.eqb_neq in H.
  unfold in_class, in_range. cbn [existsb fst snd]. rewrite orb_false_r.
  apply andb_false_iff.
  destruct (N.leb_spec 64 c); [right; apply N.leb_gt; lia | now left].
Qed.

Lemma ssn_check_kind (ds : list cu) : ssn_check (map kind ds) = ssn_check ds.
Proof.
  unfold ssn_check.
  replace (ssn_text (map kind ds)) with (map kind (ssn_text ds))
    by (unfold ssn_text; rewrite !map_app;
        repeat (rewrite firstn_map || rewrite skipn_map); reflexivity).
  now rewrite no_at_kind, whole_match_kind.
Qed.

Lemma phone_check_kind (ds : list cu) : phone_check (map kind ds) = phone_check ds.
Proof.
  assert (Hs : forall sp, In sp phone_seps -> map kind sp = sp).
  { intros sp Hsp. cbn in Hsp.
    destruct Hsp as [<-|[<-|[<-|[<-|[]]]]]; reflexivity. }
  assert (Ht : forall s1 s2, In s1 phone_seps -> In s2 phone_seps ->
                 phone_text s1 s2 (map kind ds) = map kind (phone_text s1 s2 ds)).
  { intros s1 s2 H1 H2. unfold phone_text. rewrite !map_app.
    repeat (rewrite firstn_map || rewrite skipn_map).
    now rewrite (Hs s1 H1), (Hs s2 H2). }
  unfold phone_check.
  apply PlainText.forallb_ext_in. intros s1 H1.
  apply PlainText.forallb_ext_in. intros s2 H2.
  now rewrite (Ht s1 s2 H1 H2), no_at_kind, whole_match_kind.
Qed.

(** X16: nine digits written as a social security number, 3-2-4 with
    hyphens, and standing alone are redacted to the SSN token, whatever the
    digits are: neither the EMAIL nor the PHONE pass touches them first. *)
Theorem redactPII_ssn :
  forall ds : list cu,
    length ds = 9 -> forallb (in_class digit) ds = true ->
    redactPII (ssn_text ds) = lit "{REDACTED_SSN}".
Proof.
  intros ds Hl Hd.
  assert (Hw : ssn_check ds = true).
  { apply (digits_checked ssn_check [9]);
      [apply ssn_check_kind | vm_cast_no_check (eq_refl true)
      | rewrite Hl; now left | assumption]. }
  unfold ssn_check in Hw. apply andb_true_iff in Hw. destruct Hw as [Ha Hw].
  assert (Hne : ssn_text ds <> []).
  { unfold ssn_text. destruct (firstn 3 ds); discriminate. }
  destruct (@whole_match_passes SSN [PHONE] (ssn_text ds) Hw Hne) as [Hb Hc].
  rewrite redactPII_passes. unfold passes.
  rewrite (no_at_email _ Ha). rewrite (Hb PHONE) by (cbn; auto).
  rewrite Hc. vm_compute. reflexivity.
Qed.

(** X17: ten digits written as a phone number, 3-3-4 with a hyphen, a dot,
    a space or nothing between the groups, and standing alone are redacted
    to the PHONE token, whatever the digits are. *)
Theorem redactPII_phone :
  forall (sep1 sep2 : jsstring) (ds : list cu),
    In sep1 phone_seps -> In sep2 phone_seps ->
    length ds = 10 -> forallb (in_class digit) ds = true ->
    redactPII (phone_text sep1 sep2 ds) = lit "{REDACTED_PHONE}".
Proof.
  intros sep1 sep2 ds H1 H2 Hl Hd.
  assert (Hw : phone_check ds = true).
  { apply (digits_checked phone_check [10]);
      [apply phone_check_kind | vm_cast_no_check (eq_refl true)
      | rewrite Hl; now left | assumption]. }
  unfold phone_check in Hw. rewrite forallb_forall in Hw.
  specialize (Hw sep1 H1). rewrite forallb_forall in Hw. specialize (Hw sep2 H2).
  apply andb_true_iff in Hw. destruct Hw as [Ha Hw].
  assert (Hne : phone_text sep1 sep2 ds <> []).
  { unfold phone_text. destruct ds; [discriminate Hl | discriminate]. }
  destruct (@whole_match_passes PHONE [] (phone_text sep1 sep2 ds) Hw Hne)
    as [_ Hc].
  rewrite redactPII_passes. unfold passes.
  rewrite (no_at_email _ Ha), Hc. vm_compute. reflexivity.
Qed.

Lemma pass_behind_token c t (b : jsstring) :
  first_match c b = None -> pass c (token t ++ b) = token t ++ b.
Proof.
  intros H. change (token t ++ b) with ([] ++ token t ++ b) at 1.
  rewrite pass_token, (pass_none c b H).
  replace (pass c []) with (@nil N); [reflexivity|].
  symmetry. apply pass_none. unfold first_match, first_match_from.
  cbn [find_from]. now rewrite never_empty.
Qed.

Section Mapped.

Variable f : cu -> cu.
Hypothesis f_word : forall c, is_word (f c) = is_word c.

Lemma mt_mapped ic r :
  respects f ic r ->
  forall x, mt ic r (mapst f x) = map (mapst f) (mt ic r x).
Proof.
  induction r as [|cls|r1 IH1 r2 IH2|r1 IH1 r2 IH2|g mn mx r IH|r IH|];
    cbn [respects]; intros Hr x; cbn [mt].
  - reflexivity.
  - destruct x as [pw s]. unfold mapst. cbn [rest snd fst map].
    destruct s as [|c s]; cbn [map]; [reflexivity|].
    rewrite (Hr c), f_word.
    destruct (class_match ic cls c); reflexivity.
  - destruct Hr as [Hr1 Hr2].
    rewrite IH1, flat_map_map, map_flat_map by assumption.
    apply flat_map_ext. intros z. now apply IH2.
  - destruct Hr as [Hr1 Hr2]. now rewrite IH1, IH2, map_app.
  - rewrite rep_map by (now apply IH).
    unfold rep_fuel. now rewrite mapst_length.
  - now apply IH.
  - destruct x as [pw s]. unfold mapst. cbn [rest snd fst].
    replace (next_is_word (map f s)) with (next_is_word s)
      by (destruct s; cbn [map next_is_word]; [reflexivity | now rewrite f_word]).
    destruct (xorb pw (next_is_word s)); reflexivity.
Qed.

End Mapped.

Lemma any_digit_word c : is_word (any_digit c) = is_word c.
Proof.
  unfold any_digit. destruct (in_class digit c) eqn:Hd; [|reflexivity].
  symmetry. apply (PlainText.in_class_sub digit word); [reflexivity | assumption].
Qed.

Lemma digits_alike_respects ic r :
  digits_alike ic r = true -> respects any_digit ic r.
Proof.
  induction r as [|cls|r1 IH1 r2 IH2|r1 IH1 r2 IH2|g mn mx r IH|r IH|];
    cbn [digits_alike respects]; intros H; auto.
  - intros c. unfold any_digit. destruct (in_class digit c) eqn:Hd; [|reflexivity].
    assert (Hin : In c all_digits).
    { destruct (digit_cases c Hd) as [->|Hin]; [cbn; auto|].
      unfold other_digits in Hin. unfold all_digits. cbn [In] in *. intuition auto. }
    unfold class_digits_alike in H. rewrite forallb_forall in H.
    symmetry. apply eqb_prop. now apply H.
  - apply andb_true_iff in H. destruct H. split; auto.
  - apply andb_true_iff in H. destruct H. split; auto.
Qed.

Lemma any_digit_run (s : jsstring) :
  forallb (in_class digit) s = true -> map any_digit s = repeat 50%N (length s).
Proof.
  induction s as [|c s IH]; cbn [forallb map length repeat]; [reflexivity|].
  intros H. apply andb_true_iff in H. destruct H as [Hc Hs].
  rewrite (IH Hs). unfold any_digit. now rewrite Hc.
Qed.

(** What follows the prefix matches exactly the first ten digits of a run
    of ten to sixteen digits. *)
Lemma tail_on_digits (s : jsstring) pw :
  forallb (in_class digit) s = true -> 10 <= length s <= 16 ->
  exists y, mt false PHONE_tail (pw, s) = [y] /\ length (rest y) = length s - 10.
Proof.
  intros Hd Hl.
  pose proof (@mt_mapped any_digit any_digit_word false PHONE_tail
                (digits_alike_respects false PHONE_tail eq_refl) (pw, s)) as Hm.
  unfold mapst at 1 in Hm. cbn [fst rest snd] in Hm.
  rewrite (any_digit_run s Hd) in Hm.
  assert (Hc : mt false PHONE_tail (pw, repeat 50%N (length s)) =
               [(true, repeat 50%N (length s - 10))]).
  { assert (Hn : In (length s) [10; 11; 12; 13; 14; 15; 16]) by (cbn [In]; lia).
    cbn [In] in Hn.
    destruct Hn as [<-|[<-|[<-|[<-|[<-|[<-|[<-|[]]]]]]]];
      destruct pw; vm_compute; reflexivity. }
  rewrite Hc in Hm.
  destruct (mt false PHONE_tail (pw, s)) as [|y [|y' l]]; try discriminate Hm.
  exists y. split; [reflexivity|].
  cbn [map] in Hm. unfold mapst in Hm. injection Hm as _ Hy.
  apply (f_equal (@length _)) in Hy.
  rewrite length_map, repeat_length in Hy. unfold rest in *. lia.
Qed.

(** An optional part: its non-empty matches, then none. *)
Lemma mt_opt ic r x :
  mt ic (opt r) x =
  flat_map (fun y => if length (rest y) =? length (rest x) then [] else [y])
    (mt ic r x) ++ [x].
Proof.
  unfold opt. cbn [mt]. unfold rep_fuel. cbn [rep Nat.eqb andb Nat.ltb Nat.leb].
  f_equal. apply flat_map_ext_in. intros y Hy.
  destruct (Nat.eqb_spec (length (rest y)) (length (rest x))) as [_|Hne];
    [reflexivity|].
  apply mt_shrinking in Hy.
  destruct (length (rest x)) as [|n] eqn:Hx; [lia|].
  cbn [Nat.add]. reflexivity.
Qed.

(** The prefix in front of a digit. *)
Lemma prefix_on_digit d (s : jsstring) :
  in_class digit d = true -> forallb (in_class digit) s = true ->
  mt false (opt PHONE_prefix) (false, d :: s) =
  if (d =? 49)%N then [(true, s); (false, d :: s)] else [(false, d :: s)].
Proof.
  intros Hd Hs.
  assert (Hr : (48 <= d <= 57)%N).
  { unfold in_class, digit, in_range in Hd. cbn [existsb fst snd] in Hd.
    rewrite orb_false_r in Hd. apply andb_true_iff in Hd. destruct Hd as [H1 H2].
    apply N.leb_le in H1, H2. lia. }
  assert (Hplus : mt false (chr "+") (false, d :: s) = []).
  { cbn [mt chr rest snd]. rewrite EmailFacts.class_match_plain.
    destruct (in_class [(N_of_ascii "+", N_of_ascii "+")] d) eqn:H; [|reflexivity].
    apply EmailFacts.single_class in H. change (N_of_ascii "+") with 43%N in H. lia. }
  assert (Hsep : forall pw, mt false (opt sep) (pw, s) = [(pw, s)]).
  { intros pw. rewrite mt_opt. destruct s as [|c s']; [reflexivity|].
    cbn [forallb] in Hs. apply andb_true_iff in Hs. destruct Hs as [Hc _].
    assert (Hcr : (48 <= c <= 57)%N).
    { unfold in_class, digit, in_range in Hc. cbn [existsb fst snd] in Hc.
      rewrite orb_false_r in Hc. apply andb_true_iff in Hc. destruct Hc as [H1 H2].
      apply N.leb_le in H1, H2. lia. }
    unfold sep. cbn [mt rest snd]. rewrite EmailFacts.class_match_plain.
    replace (in_class (one_of "-. ") c) with false; [reflexivity|].
    assert (Hin : In c all_digits) by (unfold all_digits; cbn [In]; lia).
    unfold all_digits in Hin. cbn [In] in Hin.
    decompose [or] Hin; subst; try reflexivity; contradiction. }
  assert (Hp : mt false PHONE_prefix (false, d :: s) =
               if (d =? 49)%N then [(true, s)] else []).
  { unfold PHONE_prefix. cbn [cat fold_right].
    cbn [mt]. fold (mt false (opt (chr "+")) (false, d :: s)).
    rewrite mt_opt, Hplus. cbn [flat_map app].
    rewrite app_nil_r. unfold chr at 1. cbn [mt rest snd].
    rewrite EmailFacts.class_match_plain.
    destruct (N.eqb_spec d 49) as [->|Hne].
    - change (in_class [(N_of_ascii "1", N_of_ascii "1")] 49) with true. cbn iota.
      change (is_word 49) with true. cbn [flat_map].
      rewrite Hsep. reflexivity.
    - destruct (in_class [(N_of_ascii "1", N_of_ascii "1")] d) eqn:H; [|reflexivity].
      apply EmailFacts.single_class in H. contradiction. }
  rewrite mt_opt, Hp.
  destruct (d =? 49)%N; cbn [flat_map app rest snd length]; [|reflexivity].
  replace (length s =? S (length s)) with false
    by (symmetry; apply Nat.eqb_neq; lia).
  reflexivity.
Qed.

(** At the start of a bare run of 11 to 16 digits the PHONE pattern takes
    ten digits, and a leading 1 in front of them. *)
Lemma bare_exec (ds : list cu) :
  forallb (in_class digit) ds = true -> 11 <= length ds <= 16 ->
  exec false PHONE_re false ds = Some (phone_take ds).
Proof.
  intros Hd Hl. destruct ds as [|d s]; [cbn in Hl; lia|].
  cbn [forallb] in Hd. apply andb_true_iff in Hd. destruct Hd as [Hd Hs].
  cbn [length] in Hl. unfold exec.
  change (mt false PHONE_re (false, d :: s))
    with (flat_map (mt false PHONE_tail) (mt false (opt PHONE_prefix) (false, d :: s))).
  rewrite (prefix_on_digit d s Hd Hs). cbn [phone_take].
  destruct (tail_on_digits (d :: s) false) as (y2 & Hy2 & Hl2);
    [cbn [forallb]; now rewrite Hd, Hs | cbn [length]; lia |].
  destruct (d =? 49)%N.
  - destruct (tail_on_digits s true Hs) as (y1 & Hy1 & Hl1); [lia|].
    cbn [flat_map]. rewrite Hy1. cbn [app length]. f_equal. lia.
  - cbn [flat_map]. rewrite Hy2. cbn [app length] in *. f_equal. lia.
Qed.

(** X18: a bare run of 13 to 16 digits, the lengths the CREDIT_CARD
    pattern is written for, that stands alone is never redacted as a card:
    the PHONE pass, which runs first, replaces the first ten digits, and a
    leading 1 in front of them, and the digits behind them are left in the
    output as they are. *)
Theorem redactPII_bare_card_number :
  forall ds : list cu,
    13 <= length ds <= 16 -> forallb (in_class digit) ds = true ->
    redactPII ds = lit "{REDACTED_PHONE}" ++ skipn (phone_take ds) ds.
Proof.
  intros ds Hl Hd.
  assert (Hrl : 2 <= length (skipn (phone_take ds) ds) <= 6).
  { rewrite length_skipn. unfold phone_take.
    destruct ds as [|d ?]; [cbn in Hl; lia|]. destruct (d =? 49)%N; lia. }
  assert (Hw : bare_rest_check (skipn (phone_take ds) ds) = true).
  { apply (digits_checked bare_rest_check [2; 3; 4; 5; 6]);
      [apply bare_rest_check_kind | vm_cast_no_check (eq_refl true)
      | cbn [In]; lia |].
    apply forallb_forall. intros c Hc. rewrite forallb_forall in Hd.
    apply Hd. rewrite <- (firstn_skipn (phone_take ds) ds).
    apply in_or_app. now right. }
  unfold bare_rest_check in Hw.
  apply andb_true_iff in Hw. destruct Hw as [H2 H3].
  rewrite forallb_forall in H2, H3.
  assert (He : exec false PHONE_re false ds = Some (phone_take ds))
    by (apply bare_exec; [assumption | lia]).
  assert (Hrest : forall c, In c [SSN; CREDIT_CARD; ADDRESS] ->
                    first_match c (skipn (phone_take ds) ds) = None).
  { intros c Hc. specialize (H3 c Hc).
    destruct (first_match c _); [discriminate | reflexivity]. }
  assert (Hnone : forall pw,
            find_from false PHONE_re pw (skipn (phone_take ds) ds) = None).
  { intros pw.
    assert (Hin : In pw [true; false]) by (destruct pw; cbn; auto).
    specialize (H2 pw Hin). unfold first_match_from in H2.
    cbn [PII_PATTERNS fst snd] in H2.
    destruct (find_from false PHONE_re pw _); [discriminate | reflexivity]. }
  assert (Hk : S (pred (phone_take ds)) = phone_take ds).
  { unfold phone_take. destruct ds as [|d ?]; [|destruct (d =? 49)%N]; reflexivity. }
  assert (Hphone : pass PHONE ds = token PHONE ++ skipn (phone_take ds) ds).
  { unfold pass, replace_with, replace. cbn [PII_PATTERNS fst snd].
    assert (Hf : find_from false PHONE_re false ds = Some (0, S (pred (phone_take ds)))).
    { rewrite Hk. destruct ds as [|d ds']; [cbn in Hl; lia|].
      cbn [find_from]. now rewrite He. }
    rewrite (@replace_from_first_match false PHONE_re (token PHONE) ds false 0 _ Hf).
    rewrite Hk. change (0 + phone_take ds) with (phone_take ds).
    change (firstn 0 ds) with (@nil N). cbn [app]. f_equal.
    apply replace_from_no_match, Hnone. }
  assert (Hemail : pass EMAIL ds = ds).
  { apply no_at_email. unfold no_at. apply forallb_forall. intros c Hc.
    rewrite forallb_forall in Hd. specialize (Hd c Hc).
    destruct (N.eqb_spec c 64) as [->|_]; [discriminate Hd | reflexivity]. }
  rewrite redactPII_passes. unfold passes.
  rewrite Hemail, Hphone.
  rewrite (pass_behind_token SSN PHONE) by (apply Hrest; cbn; auto).
  rewrite (pass_behind_token CREDIT_CARD PHONE) by (apply Hrest; cbn; auto).
  rewrite (pass_behind_token ADDRESS PHONE) by (apply Hrest; cbn; auto).
  reflexivity.
Qed.

End DigitFacts.

(* ------------------------------------------------------------------ *)
(** ** The theorems on numbers at sample inputs *)

Lemma redactPII_ssn_witness :
  length (lit "123456789") = 9 /\
  forallb (in_class digit) (lit "123456789") = true /\
  redactPII (lit "123-45-6789") = lit "{REDACTED_SSN}".
Proof.
  split; [reflexivity|].
  split; [reflexivity|].
  apply (@DigitFacts.redactPII_ssn (lit "123456789")); reflexivity.
Defined.

Lemma redactPII_phone_witness :
  In (lit "-") phone_seps /\
  In (lit ".") phone_seps /\
  length (lit "1551234567") = 10 /\
  forallb (in_class digit) (lit "1551234567") = true /\
  redactPII (lit "155-123.4567") = lit "{REDACTED_PHONE}".
Proof.
  split; [left; reflexivity|].
  split; [right; left; reflexivity|].
  split; [reflexivity|].
  split; [reflexivity|].
  apply (@DigitFacts.redactPII_phone (lit "-") (lit ".") (lit "1551234567")).
  - left. reflexivity.
  - right. left. reflexivity.
  - reflexivity.
  - reflexivity.
Defined.

Lemma redactPII_bare_card_number_witness :
  13 <= length (lit "4111111111111111") <= 16 /\
  forallb (in_class digit) (lit "4111111111111111") = true /\
  redactPII (lit "4111111111111111") = lit "{REDACTED_PHONE}111111".
Proof.
  split; [cbn; lia|].
  split; [reflexivity|].
  apply (@DigitFacts.redactPII_bare_card_number (lit "4111111111111111")).
  - cbn. lia.
  - reflexivity.
Defined.
